(** * Forward model of a polarised light-field microscope

    A shallow embedding of [VolumeRaytraceLFM/birefringence_implementations.py]
    (class [BirefringentRaytraceLFM]): the ray accumulator
    [calc_cummulative_JM_of_ray], the per-micro-lens image computation
    [ret_and_azim_images], the micro-lens tiler [ray_trace_through_volume] and
    the volume presets [generate_random_volume] and
    [generate_ellipsoid_volume].

    Tensors of [torch.float32] are IEEE 754 binary32 values, numpy arrays of
    [float] are binary64 values; both are taken from the Standard Library's
    [SpecFloat], so that signed zeros, infinities and NaN behave as they do in
    the program.  Python exceptions are an error result. *)

From Stdlib Require Import ZArith Lia SpecFloat.
From stdpp Require Import base list.
From stdpp Require Import strings.

Local Open Scope Z_scope.

(** ** Floating-point formats *)

Module F32.
Definition prec : Z := 24.
Definition emax : Z := 128.
Definition t : Type := spec_float.

Definition zero : t := S754_zero false.
Definition one : t := Eval cbv in SFone prec emax.
Definition nan : t := S754_nan.

Definition add : t -> t -> t := SFadd prec emax.
Definition sub : t -> t -> t := SFsub prec emax.
Definition mul : t -> t -> t := SFmul prec emax.
Definition div : t -> t -> t := SFdiv prec emax.
Definition sqrt : t -> t := SFsqrt prec emax.
Definition abs : t -> t := SFabs.
Definition eqb : t -> t -> bool := SFeqb.
Definition leb : t -> t -> bool := SFleb.

(** Rounding of a finite value [m * 2^e] held in another format (the cast
    of [torch.from_numpy(...)] into a float32 tensor). *)
Definition round (x : spec_float) : t :=
  match x with
  | S754_finite s m e => binary_round prec emax s m e
  | _ => x
  end.

Definition of_Z (z : Z) : t := binary_normalize prec emax z 0 false.

Definition is_nan (x : t) : bool :=
  match x with S754_nan => true | _ => false end.
End F32.

Module F64.
Definition prec : Z := 53.
Definition emax : Z := 1024.
Definition t : Type := spec_float.

Definition zero : t := S754_zero false.
Definition one : t := Eval cbv in SFone prec emax.

Definition add : t -> t -> t := SFadd prec emax.
Definition sub : t -> t -> t := SFsub prec emax.
Definition mul : t -> t -> t := SFmul prec emax.
Definition div : t -> t -> t := SFdiv prec emax.
Definition sqrt : t -> t := SFsqrt prec emax.
Definition abs : t -> t := SFabs.
Definition eqb : t -> t -> bool := SFeqb.
Definition leb : t -> t -> bool := SFleb.

Definition of_Z (z : Z) : t := binary_normalize prec emax z 0 false.

(** A decimal literal [n / 10^d] of the Python source, rounded to nearest
    as the parser does. *)
Definition of_decimal (n : Z) (d : positive) : t :=
  div (of_Z n) (of_Z (Z.pow 10 (Z.pos d))).

(** The value of a float32 entry promoted to float64 (exact). *)
Definition of_f32 (x : spec_float) : t :=
  match x with
  | S754_finite s m e => binary_round prec emax s m e
  | _ => x
  end.
End F64.

(** ** Python exceptions *)

Inductive exn : Type :=
| IndexError
| AssertionError
| RuntimeError
| TypeError
| ValueError
| OverflowError.

Inductive result (A : Type) : Type :=
| Ok (a : A)
| Raise (e : exn).
Arguments Ok {A} a.
Arguments Raise {A} e.

#[global] Instance result_ret : MRet result := fun A a => Ok a.

#[global] Instance result_bind : MBind result := fun A B f r =>
  match r with
  | Ok a => f a
  | Raise e => Raise e
  end.

Fixpoint rmapM {A B : Type} (f : A -> result B) (l : list A) : result (list B) :=
  match l with
  | [] => Ok []
  | a :: l' => b ← f a; bs ← rmapM f l'; Ok (b :: bs)
  end.

Fixpoint rfoldM {A B : Type} (f : A -> B -> result A) (l : list B) (a : A)
  : result A :=
  match l with
  | [] => Ok a
  | b :: l' => a' ← f a b; rfoldM f l' a'
  end.

(** Tensor indexing with a Python integer along a dimension of size [D]:
    a negative index counts from the end, an index outside [-D, D) raises
    [IndexError]. *)
Definition norm_index (i : Z) (D : nat) : result nat :=
  if (0 <=? i) && (i <? Z.of_nat D) then Ok (Z.to_nat i)
  else if (- Z.of_nat D <=? i) && (i <? 0) then Ok (Z.to_nat (i + Z.of_nat D))
  else Raise IndexError.

(** ** Jones matrices *)

Definition complex64 : Type := F32.t * F32.t.
Definition vec3 : Type := F32.t * F32.t * F32.t.

Record JonesMatrix : Type := mkJM {
  jm00 : complex64; jm01 : complex64;
  jm10 : complex64; jm11 : complex64
}.

(** [torch.tensor([[1.0,0],[0,1.0]], dtype=torch.complex64)] *)
Definition JM_identity : JonesMatrix :=
  mkJM (F32.one, F32.zero) (F32.zero, F32.zero)
       (F32.zero, F32.zero) (F32.one, F32.zero).

(** ** Data of the ray tracer *)

Definition coord : Type := Z * Z * Z.

(** The values one ray contributes to a traversal step: the column of
    [my_params] gathered for its voxel (birefringence [Delta_n] and
    [opticAxis]), its row of [filtered_rayDir] and its entry of [ell]. *)
Record vox_input : Type := mkInput {
  Delta_n : F32.t;
  opticAxis : vec3;
  rayDir : vec3 * vec3 * vec3;
  ell : F32.t
}.

Record OpticConfig : Type := mkConfig {
  n_micro_lenses : Z;
  n_voxels_per_ml : Z;
  n_pixels_per_mla : nat
}.

(** The fields of [self] that the three methods read.
    [ray_vol_colli_lengths] is a tensor of shape [(n_rays, colli_steps)]. *)
Record BirefringentRaytraceLFM : Type := mkRays {
  optic_config : OpticConfig;
  voxel_span_per_ml : Z;
  vox_ctr_idx : Z * Z * Z;
  ray_valid_indexes : list (Z * Z);
  ray_vol_colli_indexes : list (list coord);
  ray_vol_colli_lengths : nat -> nat -> F32.t;
  colli_steps : nat;
  ray_valid_direction : list vec3
}.

(** [voxel_parameters] is a tensor of shape [(4, Dz, Dy, Dx)]. *)
Record VolumeLFM : Type := mkVolume {
  Dz : nat; Dy : nat; Dx : nat;
  voxel_parameters : nat -> nat -> nat -> nat -> F32.t
}.

Abbreviation image := (list (list F32.t)).

(** [torch.zeros((r, c))] *)
Definition zeros (r c : nat) : image := replicate r (replicate c F32.zero).

(** An [r] by [c] tensor. *)
Definition has_shape (r c : nat) (img : image) : Prop :=
  length img = r /\ Forall (fun row => length row = c) img.

(** ** Boolean masks *)

(** [l[mask]]: the entries of [l] at the positions where [mask] is [True]. *)
Fixpoint select {A : Type} (mask : list bool) (l : list A) : list A :=
  match mask, l with
  | b :: mask', a :: l' => if b then a :: select mask' l' else select mask' l'
  | _, _ => []
  end.

(** [dst[mask] = src]: the rows of [src] are written, in order, at the
    positions of [dst] where [mask] is [True]; [src] has one row for each of
    them. *)
Fixpoint masked_assign {A : Type} (dst : list A) (mask : list bool)
  (src : list A) : list A :=
  match dst, mask with
  | d :: dst', true :: mask' =>
      match src with
      | s :: src' => s :: masked_assign dst' mask' src'
      | [] => d :: dst'
      end
  | d :: dst', false :: mask' => d :: masked_assign dst' mask' src
  | _, _ => dst
  end.

(** [mask.sum()] *)
Definition mask_sum (mask : list bool) : nat := length (filter (fun b => b = true) mask).

(** [range(a, b)] *)
Definition py_range (a b : Z) : list Z :=
  (fun k => a + Z.of_nat k) <$> seq 0 (Z.to_nat (b - a)).

(** [floor(n / 2.0)] for an integer [n]; the float division is exact for
    every micro-lens count below [2^53]. *)
Definition floor_half (n : Z) : Z := n / 2.

(** ** Concatenation of images *)

Definition ncols (img : image) : nat :=
  match img with
  | [] => 0%nat
  | row :: _ => length row
  end.

(** [torch.cat((a, b), 0)]: the sizes along dimension 1 have to agree. *)
Definition cat0 (a b : image) : result image :=
  if Nat.eqb (ncols a) (ncols b) then Ok (a ++ b) else Raise RuntimeError.

(** [torch.cat((a, b), 1)]: the sizes along dimension 0 have to agree. *)
Definition cat1 (a b : image) : result image :=
  if Nat.eqb (length a) (length b) then Ok (zip_with app a b)
  else Raise RuntimeError.

(** [img[i, j] = v] on a tensor of shape [(r, c)]. *)
Definition set_pixel (r c : nat) (img : image) (i j : Z) (v : F32.t)
  : result image :=
  i' ← norm_index i r;
  j' ← norm_index j c;
  Ok (alter (fun row => <[j' := v]> row) i' img).

(** ** The ray tracer *)

Section RayTracer.

(** The helpers of [jones_torch] are called by the class but defined
    outside the files verified here; they are parameters of the
    development.  [rayJM], [calc_retardance], [calc_azimuth] and
    [calc_rayDir] are arbitrary functions of their arguments;
    [calc_rayDir] returns three tensors of shape [(n_rays, 3)], given by
    their rows. *)
Variable rayJM : list (list JonesMatrix) -> list (list coord) -> list JonesMatrix.
Variable calc_retardance : list JonesMatrix -> list F32.t.
Variable calc_azimuth : list JonesMatrix -> list F32.t.
Variable calc_rayDir : list vec3 -> (nat -> vec3) * (nat -> vec3) * (nat -> vec3).

(** Modelled from the spec: [voxRayJM] is missing from the sources; by
    section 4.1 it maps [N] independent tuples (birefringence, axis, ray
    direction, path length) to [N] matrices, one for each tuple, so the
    batched call is the map of a function of one tuple. *)
Variable voxRayJM1 : vox_input -> JonesMatrix.

Definition voxRayJM (batch : list vox_input) : list JonesMatrix :=
  voxRayJM1 <$> batch.

(** [torch.all(my_params == 0)] over the four channels of every column. *)
Definition params_all_zero (x : vox_input) : bool :=
  let '(a1, a2, a3) := opticAxis x in
  F32.eqb (Delta_n x) F32.zero && F32.eqb a1 F32.zero
  && F32.eqb a2 F32.zero && F32.eqb a3 F32.zero.

(** [valid_voxel = Delta_n != 0] *)
Definition valid_voxel (inputs : list vox_input) : list bool :=
  (fun x => negb (F32.eqb (Delta_n x) F32.zero)) <$> inputs.

(** The body of the loop of [calc_cummulative_JM_of_ray] after the gather:
    the matrices [JM] appended to [JM_list], and the batches [voxRayJM] was
    called with during the step (none or one). *)
Definition JM_of_step (inputs : list vox_input)
  : list JonesMatrix * list (list vox_input) :=
  let JM := replicate (length inputs) JM_identity in
  if negb (forallb params_all_zero inputs) then
    if Nat.ltb 0 (mask_sum (valid_voxel inputs)) then
      let batch := select (valid_voxel inputs) inputs in
      (masked_assign JM (valid_voxel inputs) (voxRayJM batch), [batch])
    else (JM, [])
  else (JM, []).

(** [rays_with_voxels = [len(vx)>m for vx in voxels_of_segs]] *)
Definition rays_with_voxels (voxels_of_segs : list (list coord)) (m : nat)
  : list bool :=
  (fun vx => Nat.ltb m (length vx)) <$> voxels_of_segs.

(** One column of
    [voxel_parameters[:, [v[0]...], [v[1]+offset[0]...], [v[2]+offset[1]...]]]. *)
Definition gather (vol : VolumeLFM) (micro_lens_offset : Z * Z) (v : coord)
  : result (F32.t * vec3) :=
  let '(v0, v1, v2) := v in
  z ← norm_index v0 (Dz vol);
  y ← norm_index (v1 + micro_lens_offset.1) (Dy vol);
  x ← norm_index (v2 + micro_lens_offset.2) (Dx vol);
  Ok (voxel_parameters vol 0 z y x,
      (voxel_parameters vol 1 z y x,
       voxel_parameters vol 2 z y x,
       voxel_parameters vol 3 z y x)).

(** What step [m] reads: [ell], [vox], [my_params] and [filtered_rayDir],
    one record for each ray that has an [m]-th voxel. *)
Definition step_inputs (self : BirefringentRaytraceLFM) (vol : VolumeLFM)
  (micro_lens_offset : Z * Z) (m : nat) : result (list vox_input) :=
  let voxels_of_segs := ray_vol_colli_indexes self in
  let ell_in_voxels := ray_vol_colli_lengths self in
  let '(d0, d1, d2) := calc_rayDir (ray_valid_direction self) in
  let mask := rays_with_voxels voxels_of_segs m in
  let rows := seq 0 (length voxels_of_segs) in
  let ell := select mask ((fun r => ell_in_voxels r m) <$> rows) in
  let vox := omap (fun vx => vx !! m) voxels_of_segs in
  my_params ← rmapM (gather vol micro_lens_offset) vox;
  let filtered_rayDir := select mask ((fun r => (d0 r, d1 r, d2 r)) <$> rows) in
  Ok (zip_with (fun p dl => mkInput p.1 p.2 dl.1 dl.2)
        my_params (zip filtered_rayDir ell)).

Definition calc_cummulative_JM_of_ray (self : BirefringentRaytraceLFM)
  (vol : VolumeLFM) (micro_lens_offset : Z * Z) : result (list JonesMatrix) :=
  JM_list ← rmapM (fun m => inputs ← step_inputs self vol micro_lens_offset m;
                            Ok (JM_of_step inputs).1)
                  (seq 0 (colli_steps self));
  Ok (rayJM JM_list (ray_vol_colli_indexes self)).

(** The loop [for ray_ix, (i,j) in enumerate(self.ray_valid_indexes)]. *)
Definition assign_pixel (ppm : nat) (retardance azimuth : list F32.t)
  (imgs : image * image) (p : nat * (Z * Z)) : result (image * image) :=
  let '(ray_ix, (i, j)) := p in
  match retardance !! ray_ix, azimuth !! ray_ix with
  | Some r, Some a =>
      ret_image ← set_pixel ppm ppm imgs.1 i j r;
      azim_image ← set_pixel ppm ppm imgs.2 i j a;
      Ok (ret_image, azim_image)
  | _, _ => Raise IndexError
  end.

Definition enumerate {A : Type} (l : list A) : list (nat * A) :=
  zip (seq 0 (length l)) l.

Definition ret_and_azim_images (self : BirefringentRaytraceLFM)
  (volume_in : VolumeLFM) (micro_lens_offset : Z * Z)
  : result (image * image) :=
  let n_micro_lenses := n_micro_lenses (optic_config self) in
  let n_ml_half := floor_half n_micro_lenses in
  let '(_, ctr1, ctr2) := vox_ctr_idx self in
  let micro_lens_offset :=
    (micro_lens_offset.1 + ctr1 - n_ml_half,
     micro_lens_offset.2 + ctr2 - n_ml_half) in
  let pixels_per_ml := n_pixels_per_mla (optic_config self) in
  let ret_image := zeros pixels_per_ml pixels_per_ml in
  let azim_image := zeros pixels_per_ml pixels_per_ml in
  effective_JM ← calc_cummulative_JM_of_ray self volume_in micro_lens_offset;
  let retardance := calc_retardance effective_JM in
  let azimuth := calc_azimuth effective_JM in
  rfoldM (assign_pixel pixels_per_ml retardance azimuth)
         (enumerate (ray_valid_indexes self)) (ret_image, azim_image).

(** *** The tiler

    The tiler is run in a monad that also records the micro-lens offsets
    [ret_and_azim_images] was called with, in the order of the calls. *)

Definition traced (A : Type) : Type := list (Z * Z) * result A.

Definition tret {A : Type} (a : A) : traced A := ([], Ok a).

Definition traise {A : Type} (e : exn) : traced A := ([], Raise e).

Definition tlift {A : Type} (r : result A) : traced A := ([], r).

Definition tbind {A B : Type} (m : traced A) (f : A -> traced B) : traced B :=
  match m.2 with
  | Ok a => (m.1 ++ (f a).1, (f a).2)
  | Raise e => (m.1, Raise e)
  end.

Fixpoint tfoldM {A B : Type} (f : A -> B -> traced A) (l : list B) (a : A)
  : traced A :=
  match l with
  | [] => tret a
  | b :: l' => tbind (f a b) (tfoldM f l')
  end.

Definition tile (self : BirefringentRaytraceLFM) (volume_in : VolumeLFM)
  (current_offset : Z * Z) : traced (image * image) :=
  ([current_offset], ret_and_azim_images self volume_in current_offset).

(** The body of the loop over [ml_jj]. *)
Definition add_to_row (self : BirefringentRaytraceLFM) (volume_in : VolumeLFM)
  (ml_ii : Z) (full_img_row : option (image * image)) (ml_jj : Z)
  : traced (option (image * image)) :=
  let n_voxels_per_ml := n_voxels_per_ml (optic_config self) in
  let current_offset := (n_voxels_per_ml * ml_ii, n_voxels_per_ml * ml_jj) in
  tbind (tile self volume_in current_offset) (fun imgs =>
    match full_img_row with
    | None => tret (Some imgs)
    | Some row =>
        tlift (r ← cat0 row.1 imgs.1; a ← cat0 row.2 imgs.2; Ok (Some (r, a)))
    end).

(** The body of the loop over [ml_ii]. *)
Definition add_row (self : BirefringentRaytraceLFM) (volume_in : VolumeLFM)
  (n_ml_half : Z) (full_img : option (image * image)) (ml_ii : Z)
  : traced (option (image * image)) :=
  tbind (tfoldM (add_to_row self volume_in ml_ii)
           (py_range (- n_ml_half) (n_ml_half + 1)) None)
    (fun full_img_row =>
       match full_img with
       | None => tret full_img_row
       | Some full =>
           match full_img_row with
           | Some row =>
               tlift (r ← cat1 full.1 row.1; a ← cat1 full.2 row.2;
                      Ok (Some (r, a)))
           | None => traise TypeError
           end
       end).

(** The two images are [None] together or tensors together; the pair of
    them is an optional pair. *)
Definition ray_trace_through_volume (self : BirefringentRaytraceLFM)
  (volume_in : VolumeLFM) : traced (option (image * image)) :=
  let volume_shape := (Dy volume_in, Dx volume_in) in
  let n_micro_lenses := n_micro_lenses (optic_config self) in
  let n_ml_half := floor_half n_micro_lenses in
  let voxel_span_per_ml := voxel_span_per_ml self * n_micro_lenses in
  if negb (voxel_span_per_ml <? Z.of_nat volume_shape.1) then
    traise AssertionError
  else
    tfoldM (add_row self volume_in n_ml_half)
           (py_range (- n_ml_half) (n_ml_half + 1)) None.

End RayTracer.

(** ** Volume presets *)

(** [floor(x)] of the [math] module on a Python float. *)
Definition py_floor (x : F64.t) : result Z :=
  match x with
  | S754_zero _ => Ok 0
  | S754_finite s m e =>
      let v := if s then Z.neg m else Z.pos m in
      Ok (if 0 <=? e then v * 2 ^ e else v / 2 ^ (- e))
  | S754_nan => Raise ValueError
  | S754_infinity _ => Raise OverflowError
  end.

(** One voxel of [generate_random_volume].  The function draws the four
    tensors [Delta_n], [a_0], [a_1] and [a_2] itself; the drawn values are
    arguments here ([uniform_(0, .01)] for the first, [uniform_(-5, 5)] for
    the others). *)
Definition random_voxel (Delta_n a_0 a_1 a_2 : F32.t) : F32.t * vec3 :=
  let norm_A :=
    F32.sqrt (F32.add (F32.add (F32.mul a_0 a_0) (F32.mul a_1 a_1))
                      (F32.mul a_2 a_2)) in
  (Delta_n, (F32.div a_0 norm_A, F32.div a_1 norm_A, F32.div a_2 norm_A)).

Definition tensor3 : Type := nat -> nat -> nat -> F32.t.

Definition volume_of (volume_shape : nat * nat * nat)
  (voxel : nat -> nat -> nat -> F32.t * vec3) : VolumeLFM :=
  let '(dz, dy, dx) := volume_shape in
  mkVolume dz dy dx (fun c z y x =>
    let '(dn, (a1, a2, a3)) := voxel z y x in
    match c with
    | O => dn
    | 1%nat => a1
    | 2%nat => a2
    | _ => a3
    end).

Definition generate_random_volume (volume_shape : nat * nat * nat)
  (Delta_n a_0 a_1 a_2 : tensor3) : VolumeLFM :=
  volume_of volume_shape (fun z y x =>
    random_voxel (Delta_n z y x) (a_0 z y x) (a_1 z y x) (a_2 z y x)).

(** One voxel [(k, j, i)] of [generate_ellipsoid_volume]; [c] holds the
    three values [floor(center[d]*volume_shape[d])].  The numpy part is
    computed in float64, the entries of [vol] are float32. *)
Definition ellipsoid_voxel (c : Z * Z * Z) (radius : F64.t * F64.t * F64.t)
  (alpha delta_n : F64.t) (k j i : nat) : F32.t * vec3 :=
  let '(c0, c1, c2) := c in
  let '(r0, r1, r2) := radius in
  let two := F64.of_Z 2 in
  let kk := F64.sub (F64.of_Z c0) (F64.of_Z (Z.of_nat k)) in
  let jj := F64.sub (F64.of_Z c1) (F64.of_Z (Z.of_nat j)) in
  let ii := F64.sub (F64.of_Z c2) (F64.of_Z (Z.of_nat i)) in
  let ellipsoid_border :=
    F64.add (F64.add (F64.div (F64.mul kk kk) (F64.mul r0 r0))
                     (F64.div (F64.mul jj jj) (F64.mul r1 r1)))
            (F64.div (F64.mul ii ii) (F64.mul r2 r2)) in
  let ellipsoid_border_mask :=
    F64.leb (F64.abs (F64.sub ellipsoid_border alpha)) F64.one in
  let vol0 := if ellipsoid_border_mask then F32.one else F32.zero in
  let kk_normal := F64.div (F64.mul two kk) r0 in
  let jj_normal := F64.div (F64.mul two jj) r1 in
  let ii_normal := F64.div (F64.mul two ii) r2 in
  let norm_factor :=
    F64.sqrt (F64.add (F64.add (F64.mul kk_normal kk_normal)
                               (F64.mul jj_normal jj_normal))
                      (F64.mul ii_normal ii_normal)) in
  (* Avoid division by zero *)
  let norm_factor :=
    if F64.eqb norm_factor F64.zero then F64.one else norm_factor in
  let vol1 := F32.round (F64.mul (F64.div kk_normal norm_factor) (F64.of_f32 vol0)) in
  let vol2 := F32.round (F64.mul (F64.div jj_normal norm_factor) (F64.of_f32 vol0)) in
  let vol3 := F32.round (F64.mul (F64.div ii_normal norm_factor) (F64.of_f32 vol0)) in
  (F32.mul vol0 (F32.round delta_n), (vol1, vol2, vol3)).

Definition generate_ellipsoid_volume (volume_shape : nat * nat * nat)
  (center radius : F64.t * F64.t * F64.t) (alpha delta_n : F64.t)
  : result VolumeLFM :=
  let '(s0, s1, s2) := volume_shape in
  let '(ctr0, ctr1, ctr2) := center in
  c0 ← py_floor (F64.mul ctr0 (F64.of_Z (Z.of_nat s0)));
  c1 ← py_floor (F64.mul ctr1 (F64.of_Z (Z.of_nat s1)));
  c2 ← py_floor (F64.mul ctr2 (F64.of_Z (Z.of_nat s2)));
  Ok (volume_of volume_shape (ellipsoid_voxel (c0, c1, c2) radius alpha delta_n)).

(** The defaults of [generate_ellipsoid_volume]. *)
Definition default_center : F64.t * F64.t * F64.t :=
  (F64.of_decimal 5 1, F64.of_decimal 5 1, F64.of_decimal 5 1).
Definition default_alpha : F64.t := F64.of_decimal 1 1.

(** The voxel [(z, y, x)] of a volume: birefringence and optic axis. *)
Definition voxel_at (vol : VolumeLFM) (z y x : nat) : F32.t * vec3 :=
  (voxel_parameters vol 0 z y x,
   (voxel_parameters vol 1 z y x,
    voxel_parameters vol 2 z y x,
    voxel_parameters vol 3 z y x)).

(** The invariant of the volume data model at one voxel: the axis has unit
    length within [tol] wherever the birefringence is not zero. *)
Definition unit_axis_within (tol : F32.t) (p : F32.t * vec3) : bool :=
  let '(dn, (a1, a2, a3)) := p in
  F32.eqb dn F32.zero
  || F32.leb (F32.abs (F32.sub
        (F32.sqrt (F32.add (F32.add (F32.mul a1 a1) (F32.mul a2 a2))
                           (F32.mul a3 a3)))
        F32.one)) tol.

(** A value is a number: neither NaN nor an infinity. *)
Definition is_number (x : F32.t) : bool :=
  match x with
  | S754_nan | S754_infinity _ => false
  | _ => true
  end.


(** ** Reading the results *)

(** [img[i, j]] for indices within the tensor. *)
Definition pixel (img : image) (i j : nat) : option F32.t :=
  row ← img !! i; row !! j.

(** The entry [(a, b)] of [ray_valid_indexes] addresses the pixel [(i, j)] of
    a tile of side [ppm]. *)
Definition addresses (ppm : nat) (ab : Z * Z) (i j : nat) : Prop :=
  norm_index ab.1 ppm = Ok i /\ norm_index ab.2 ppm = Ok j.

(** The offsets of the micro-lenses in the order the tiler visits them. *)
Definition tile_offsets (n_voxels_per_ml n_ml_half : Z) : list (Z * Z) :=
  ml_ii ← py_range (- n_ml_half) (n_ml_half + 1);
  (fun ml_jj => (n_voxels_per_ml * ml_ii, n_voxels_per_ml * ml_jj))
    <$> py_range (- n_ml_half) (n_ml_half + 1).

(** The state of the inner loop of the tiler after [k] micro-lenses of side
    [ppm]. *)
Definition row_ok (ppm k : nat) (acc : option (image * image)) : Prop :=
  match acc with
  | None => k = 0%nat
  | Some row =>
      (0 < k)%nat /\ has_shape (k * ppm) ppm row.1
      /\ has_shape (k * ppm) ppm row.2
  end.

(** The state of the outer loop after [m] rows of [N] pixel rows each. *)
Definition full_ok (ppm N m : nat) (acc : option (image * image)) : Prop :=
  match acc with
  | None => m = 0%nat
  | Some full =>
      (0 < m)%nat /\ has_shape N (m * ppm) full.1
      /\ has_shape N (m * ppm) full.2
  end.

(** ** Sample data

    Instances of the helper parameters and a small optical set-up, on which
    the definitions above are run. *)

Definition cmul (a b : complex64) : complex64 :=
  (F32.sub (F32.mul a.1 b.1) (F32.mul a.2 b.2),
   F32.add (F32.mul a.1 b.2) (F32.mul a.2 b.1)).

Definition cadd (a b : complex64) : complex64 :=
  (F32.add a.1 b.1, F32.add a.2 b.2).

Definition JM_mul (A B : JonesMatrix) : JonesMatrix :=
  mkJM (cadd (cmul (jm00 A) (jm00 B)) (cmul (jm01 A) (jm10 B)))
       (cadd (cmul (jm00 A) (jm01 B)) (cmul (jm01 A) (jm11 B)))
       (cadd (cmul (jm10 A) (jm00 B)) (cmul (jm11 A) (jm10 B)))
       (cadd (cmul (jm10 A) (jm01 B)) (cmul (jm11 A) (jm11 B))).

(** The running products of the rays after one more step: a ray that has a
    voxel in the step is multiplied by its matrix, the others are kept. *)
Fixpoint multiply_step (acc : list JonesMatrix) (mask : list bool)
  (JM : list JonesMatrix) : list JonesMatrix :=
  match acc, mask with
  | a :: acc', true :: mask' =>
      match JM with
      | j :: JM' => JM_mul j a :: multiply_step acc' mask' JM'
      | [] => a :: acc'
      end
  | a :: acc', false :: mask' => a :: multiply_step acc' mask' JM
  | _, _ => acc
  end.

(** The instance of [rayJM] of the examples: the product of the matrices
    of a ray in the order of its steps. *)
Definition sample_rayJM (JM_list : list (list JonesMatrix))
  (voxels_of_segs : list (list coord)) : list JonesMatrix :=
  foldl (fun acc mJM =>
           multiply_step acc (rays_with_voxels voxels_of_segs mJM.1) mJM.2)
        (replicate (length voxels_of_segs) JM_identity)
        (zip (seq 0 (length JM_list)) JM_list).

Definition sample_voxRayJM1 (x : vox_input) : JonesMatrix :=
  mkJM (ell x, Delta_n x) (F32.zero, F32.zero)
       (F32.zero, F32.zero) (ell x, F32.sub F32.zero (Delta_n x)).

Definition sample_calc_retardance (JM : list JonesMatrix) : list F32.t :=
  (fun J => (jm00 J).2) <$> JM.

Definition sample_calc_azimuth (JM : list JonesMatrix) : list F32.t :=
  (fun J => (jm11 J).2) <$> JM.

Definition sample_calc_rayDir (rays : list vec3)
  : (nat -> vec3) * (nat -> vec3) * (nat -> vec3) :=
  let row := fun r => default (F32.zero, F32.zero, F32.zero) (rays !! r) in
  (row, row, row).

(** [0.1] as a float32. *)
Definition f32_tenth : F32.t := F32.round (F64.of_decimal 1 1).

(** A volume of shape [(4, 3, 5, dx)], zero except for the voxel
    [(1, 2, x0)], which has birefringence [0.1] and axis [(1, 0, 0)]. *)
Definition sample_volume (dx x0 : nat) : VolumeLFM :=
  mkVolume 3 5 dx (fun c z y x =>
    if Nat.eqb z 1 && Nat.eqb y 2 && Nat.eqb x x0 then
      match c with
      | O => f32_tenth
      | 1%nat => F32.one
      | _ => F32.zero
      end
    else F32.zero).

(** Two rays on a tile of 2 by 2 pixels: the ray of pixel [(0, 0)] crosses
    one voxel, the ray of pixel [(1, 1)] crosses two. *)
Definition sample_rays (n span x_ctr : Z) : BirefringentRaytraceLFM :=
  mkRays (mkConfig n 1 2) span (1, 2, x_ctr)
         [(0, 0); (1, 1)]
         [[(1, 0, 0)]; [(0, 0, 0); (1, 0, 0)]]
         (fun _ _ => F32.one) 2
         [(F32.one, F32.zero, F32.zero); (F32.zero, F32.one, F32.zero)].

Definition sample_images (self : BirefringentRaytraceLFM) (vol : VolumeLFM)
  (off : Z * Z) : result (image * image) :=
  ret_and_azim_images sample_rayJM sample_calc_retardance sample_calc_azimuth
    sample_calc_rayDir sample_voxRayJM1 self vol off.

Definition sample_tiler (self : BirefringentRaytraceLFM) (vol : VolumeLFM)
  : traced (option (image * image)) :=
  ray_trace_through_volume sample_rayJM sample_calc_retardance
    sample_calc_azimuth sample_calc_rayDir sample_voxRayJM1 self vol.

(** The inputs of one step: a voxel without birefringence (its axis entry
    is a leftover) and a birefringent one. *)
Definition sample_inputs : list vox_input :=
  let d := (F32.one, F32.zero, F32.zero) in
  [mkInput F32.zero (F32.zero, F32.one, F32.zero) (d, d, d) F32.one;
   mkInput f32_tenth (F32.one, F32.zero, F32.zero) (d, d, d) F32.one].

(** The voxel [(z, y, x)] of a generated volume. *)
Definition voxel_of (r : result VolumeLFM) (z y x : nat)
  : result (F32.t * vec3) :=
  vol ← r; Ok (voxel_at vol z y x).

(** The arguments [init_volume] passes for [init_mode='ellipsoid']:
    [radius=[5,7.5,7.5]] and [delta_n=0.1]. *)
Definition init_radius : F64.t * F64.t * F64.t :=
  (F64.of_Z 5, F64.of_decimal 75 1, F64.of_decimal 75 1).
Definition init_delta_n : F64.t := F64.of_decimal 1 1.

(** A draw of [uniform_(0, .01)]: [0.005]. *)
Definition f32_drawn_delta_n : F32.t := F32.round (F64.of_decimal 5 3).

(** A tolerance of [0.001] on the length of an axis. *)
Definition f32_tolerance : F32.t := F32.round (F64.of_decimal 1 3).

(** ** More of the accumulator's surroundings *)

(** The voxel [v], displaced by the micro-lens offset, lies within the
    index range of the tensor along each axis. *)
Definition displaced_in_range (vol : VolumeLFM) (micro_lens_offset : Z * Z)
  (v : coord) : Prop :=
  let '(v0, v1, v2) := v in
  - Z.of_nat (Dz vol) <= v0 < Z.of_nat (Dz vol)
  /\ - Z.of_nat (Dy vol) <= v1 + micro_lens_offset.1 < Z.of_nat (Dy vol)
  /\ - Z.of_nat (Dx vol) <= v2 + micro_lens_offset.2 < Z.of_nat (Dx vol).

(** A value that is neither an infinity nor NaN. *)
Definition is_finite (x : spec_float) : bool :=
  match x with
  | S754_zero _ | S754_finite _ _ _ => true
  | _ => false
  end.

(** A finite value other than zero. *)
Definition is_finite_nonzero (x : spec_float) : bool :=
  match x with
  | S754_finite _ _ _ => true
  | _ => false
  end.

(** A zero of either sign. *)
Definition is_zero (x : spec_float) : bool :=
  match x with
  | S754_zero _ => true
  | _ => false
  end.

(** ** The planes preset and [init_volume] *)

Definition zero_voxel : F32.t * vec3 :=
  (F32.zero, (F32.zero, F32.zero, F32.zero)).

(** The bound [i] of a slice [a:b] along a dimension of size [D]: a
    negative bound counts from the end, and bounds are clipped to
    [0 .. D]. *)
Definition slice_bound (i : Z) (D : nat) : Z :=
  if i <? 0 then Z.max 0 (i + Z.of_nat D) else Z.min i (Z.of_nat D).

(** [z] is one of the indices selected by [a:b]. *)
Definition in_slice (a b : Z) (D : nat) (z : nat) : bool :=
  (slice_bound a D <=? Z.of_nat z) && (Z.of_nat z <? slice_bound b D).

(** [x[k]] for a numpy array and an index that is not negative. *)
Definition np_get (x : list Z) (k : nat) : result Z :=
  match x !! k with
  | Some v => Ok v
  | None => Raise IndexError
  end.

Section Presets.

(** [linspace_int z_size num] stands for numpy's
    [np.linspace(0, z_size-1, num).astype(int)]. *)
Variable linspace_int : nat -> nat -> list Z.

(** The body of the loop [for z_ix in range(0,n_planes)] of
    [generate_planes_volume]; the volume is constant along y and x, so it is
    held as a function of z. *)
Definition fill_plane (z_size : nat) (z_ranges : list Z)
  (random_data : nat -> F32.t * vec3) (vol : nat -> F32.t * vec3) (z_ix : nat)
  : result (nat -> F32.t * vec3) :=
  a ← np_get z_ranges (z_ix * 2);
  b ← np_get z_ranges (z_ix * 2 + 1);
  Ok (fun z => if in_slice a b z_size z then random_data z_ix else vol z).

(** [generate_planes_volume(volume_shape, n_planes)]; the four tensors drawn
    by [generate_random_volume([n_planes])] are arguments. *)
Definition generate_planes_volume (volume_shape : nat * nat * nat)
  (n_planes : nat) (Delta_n a_0 a_1 a_2 : nat -> F32.t) : result VolumeLFM :=
  let '(z_size, _, _) := volume_shape in
  let z_ranges := linspace_int z_size (n_planes * 2) in
  if Nat.eqb n_planes 1 then
    let z_offset := 4 in
    z ← norm_index (Z.of_nat z_size / 2 + z_offset) z_size;
    Ok (volume_of volume_shape (fun z' _ _ =>
          if Nat.eqb z' z then (f32_tenth, (F32.one, F32.zero, F32.zero))
          else zero_voxel))
  else
    let random_data :=
      fun k => random_voxel (Delta_n k) (a_0 k) (a_1 k) (a_2 k) in
    vol ← rfoldM (fill_plane z_size z_ranges random_data) (seq 0 n_planes)
                 (fun _ => zero_voxel);
    Ok (volume_of volume_shape (fun z' _ _ => vol z')).

(** [int(c)] for a string of the one ASCII character [c]. *)
Definition py_int_digit (c : Ascii.ascii) : result nat :=
  let n := Ascii.nat_of_ascii c in
  if Nat.leb 48 n && Nat.leb n 57 then Ok (n - 48)%nat else Raise ValueError.

(** [needle in hay] *)
Fixpoint str_contains (needle hay : String.string) : bool :=
  String.prefix needle hay
  || match hay with
     | String.EmptyString => false
     | String.String _ hay' => str_contains needle hay'
     end.

(** [init_volume(volume_ref, init_mode)] for a volume that the caller
    provides; [volume_shape] is [volume_ref.config.volume_shape] and the
    tensors drawn by the random presets are arguments.  Moving the tensor to
    the device and enabling gradients leave its entries as they are. *)
Definition init_volume (volume_shape : nat * nat * nat)
  (volume_ref : VolumeLFM) (init_mode : String.string)
  (Delta_n a_0 a_1 a_2 : tensor3) (Delta_n1 a_01 a_11 a_21 : nat -> F32.t)
  : result VolumeLFM :=
  if String.eqb init_mode "zeros" then
    Ok (volume_of volume_shape (fun _ _ _ => zero_voxel))
  else if String.eqb init_mode "random" then
    Ok (generate_random_volume volume_shape Delta_n a_0 a_1 a_2)
  else if str_contains "planes" init_mode then
    match init_mode with
    | String.String c _ =>
        n_planes ← py_int_digit c;
        generate_planes_volume volume_shape n_planes Delta_n1 a_01 a_11 a_21
    | String.EmptyString => Raise IndexError
    end
  else if String.eqb init_mode "ellipsoid" then
    generate_ellipsoid_volume volume_shape default_center init_radius
      default_alpha init_delta_n
  else Ok volume_ref.

End Presets.

(** The values of [np.linspace(0, 10, 4).astype(int)]. *)
Definition sample_linspace (z_size num : nat) : list Z := [0; 3; 6; 10].

(** The number of rays that have more than [m] voxels. *)
Definition rays_at_step (voxels_of_segs : list (list coord)) (m : nat) : nat :=
  length (filter (fun vx : list coord => (m < length vx)%nat) voxels_of_segs).

(** The offset that [ret_and_azim_images] hands to the accumulator:
    [np.array(micro_lens_offset) + np.array(self.vox_ctr_idx[1:]) - n_ml_half]. *)
Definition displaced_offset (self : BirefringentRaytraceLFM)
  (micro_lens_offset : Z * Z) : Z * Z :=
  let n_ml_half := floor_half (n_micro_lenses (optic_config self)) in
  (micro_lens_offset.1 + (vox_ctr_idx self).1.2 - n_ml_half,
   micro_lens_offset.2 + (vox_ctr_idx self).2 - n_ml_half).

Definition sample_accumulator (self : BirefringentRaytraceLFM)
  (vol : VolumeLFM) (off : Z * Z) : result (list JonesMatrix) :=
  calc_cummulative_JM_of_ray sample_rayJM sample_calc_rayDir sample_voxRayJM1
    self vol off.

(** The rays of [sample_rays 1 1 2] with the second valid ray index
    outside the tile of 2 by 2 pixels. *)
Definition sample_rays_outside : BirefringentRaytraceLFM :=
  mkRays (mkConfig 1 1 2) 1 (1, 2, 2)
         [(0, 0); (2, 0)]
         [[(1, 0, 0)]; [(0, 0, 0); (1, 0, 0)]]
         (fun _ _ => F32.one) 2
         [(F32.one, F32.zero, F32.zero); (F32.zero, F32.one, F32.zero)].

(** The rays of [sample_rays] with the second pixel given from the end of
    the tile: on 2 by 2 pixels the entry [(-1, -1)] is the pixel [(1, 1)]. *)
Definition sample_rays_from_end : BirefringentRaytraceLFM :=
  mkRays (mkConfig 1 1 2) 1 (1, 2, 2)
         [(0, 0); (-1, -1)]
         [[(1, 0, 0)]; [(0, 0, 0); (1, 0, 0)]]
         (fun _ _ => F32.one) 2
         [(F32.one, F32.zero, F32.zero); (F32.zero, F32.one, F32.zero)].

(** The inputs of a step in which no voxel is birefringent; the axis
    entries are leftovers. *)
Definition sample_inputs_isotropic : list vox_input :=
  let d := (F32.one, F32.zero, F32.zero) in
  [mkInput F32.zero (F32.zero, F32.one, F32.zero) (d, d, d) F32.one;
   mkInput (S754_zero true) (F32.one, F32.zero, F32.zero) (d, d, d) F32.one].

(** * Properties *)

(** ** Masks *)

Lemma masked_assign_lookup_false {A : Type} (dst : list A) :
  forall (mask : list bool) (src : list A) (k : nat),
    mask !! k = Some false ->
    masked_assign dst mask src !! k = dst !! k.
Proof.
  induction dst as [|d dst IH]; intros mask src k Hk; [by destruct mask|].
  destruct mask as [|b mask]; [done|].
  destruct k as [|k]; simpl in Hk.
  - injection Hk as ->. reflexivity.
  - destruct b; simpl.
    + destruct src as [|s src]; [done|]. simpl. by apply IH.
    + by apply IH.
Qed.

Lemma masked_assign_length {A : Type} (dst : list A) :
  forall (mask : list bool) (src : list A),
    length (masked_assign dst mask src) = length dst.
Proof.
  induction dst as [|d dst IH]; intros mask src; [by destruct mask|].
  destruct mask as [|[] mask]; simpl; [done| |by rewrite IH].
  destruct src; simpl; [done|by rewrite IH].
Qed.

Lemma select_Forall {A : Type} (f : A -> bool) (l : list A) :
  Forall (fun a => f a = true) (select (f <$> l) l).
Proof.
  induction l as [|a l IH]; simpl; [constructor|].
  destruct (f a) eqn:Ha; [constructor|]; done.
Qed.

(** ** The identity shortcut of a traversal step *)

Section StepFacts.
Variable voxRayJM1 : vox_input -> JonesMatrix.

Lemma JM_of_step_length (inputs : list vox_input) :
  length (JM_of_step voxRayJM1 inputs).1 = length inputs.
Proof.
  unfold JM_of_step.
  repeat case_match; simpl;
    rewrite ?masked_assign_length, length_replicate; done.
Qed.

Lemma JM_of_step_batches (inputs : list vox_input) :
  Forall (Forall (fun a => F32.eqb (Delta_n a) F32.zero = false))
         (JM_of_step voxRayJM1 inputs).2.
Proof.
  unfold JM_of_step.
  repeat case_match; simpl; try by constructor.
  constructor; [|constructor].
  unfold valid_voxel.
  eapply Forall_impl;
    [apply (select_Forall (fun x => negb (F32.eqb (Delta_n x) F32.zero)))|].
  intros a Ha. by apply negb_true_iff.
Qed.

Lemma JM_of_step_zero (inputs : list vox_input) (k : nat) (x : vox_input) :
  inputs !! k = Some x ->
  F32.eqb (Delta_n x) F32.zero = true ->
  (JM_of_step voxRayJM1 inputs).1 !! k = Some JM_identity.
Proof.
  intros Hk Hx.
  assert (Hlt : (k < length inputs)%nat) by (eapply lookup_lt_Some; eauto).
  unfold JM_of_step.
  repeat case_match; simpl; try by apply lookup_replicate_2.
  rewrite masked_assign_lookup_false; [by apply lookup_replicate_2|].
  unfold valid_voxel. rewrite list_lookup_fmap, Hk. simpl. by rewrite Hx.
Qed.
End StepFacts.

(** C3. In a traversal step, a ray whose voxel has birefringence
    [Delta_n == 0] contributes the identity matrix to [JM_list], and no batch
    handed to [voxRayJM] during the step contains a tuple with
    [Delta_n == 0]: the general formula is evaluated on the voxels with
    [Delta_n != 0] only. *)
Theorem zero_birefringence_is_identity_shortcut :
  forall (voxRayJM1 : vox_input -> JonesMatrix) (inputs : list vox_input)
         (k : nat) (x : vox_input),
    inputs !! k = Some x ->
    F32.eqb (Delta_n x) F32.zero = true ->
    (JM_of_step voxRayJM1 inputs).1 !! k = Some JM_identity
    /\ Forall (Forall (fun a => F32.eqb (Delta_n a) F32.zero = false))
              (JM_of_step voxRayJM1 inputs).2.
Proof.
  intros voxRayJM1 inputs k x Hk Hx. split.
  - by eapply JM_of_step_zero.
  - apply JM_of_step_batches.
Qed.

Lemma zero_birefringence_is_identity_shortcut_witness :
  (JM_of_step sample_voxRayJM1 sample_inputs).1 !! 0%nat = Some JM_identity
  /\ Forall (Forall (fun a => F32.eqb (Delta_n a) F32.zero = false))
            (JM_of_step sample_voxRayJM1 sample_inputs).2.
Proof.
  apply (zero_birefringence_is_identity_shortcut sample_voxRayJM1
           sample_inputs 0
           (mkInput F32.zero (F32.zero, F32.one, F32.zero)
              ((F32.one, F32.zero, F32.zero), (F32.one, F32.zero, F32.zero),
               (F32.one, F32.zero, F32.zero)) F32.one));
    reflexivity.
Defined.

(** ** Writing pixels *)

Lemma norm_index_lt (i : Z) (D k : nat) : norm_index i D = Ok k -> (k < D)%nat.
Proof.
  unfold norm_index. repeat case_match; intros [= <-]; lia.
Qed.

Lemma norm_index_nonneg (i : Z) (D k : nat) :
  0 <= i -> norm_index i D = Ok k -> i = Z.of_nat k.
Proof.
  unfold norm_index. intros Hi. repeat case_match; intros [= <-]; lia.
Qed.

Lemma zeros_shape (r c : nat) : has_shape r c (zeros r c).
Proof.
  unfold has_shape, zeros. split; [apply length_replicate|].
  apply Forall_replicate, length_replicate.
Qed.

Lemma zeros_pixel (r c i j : nat) :
  (i < r)%nat -> (j < c)%nat -> pixel (zeros r c) i j = Some F32.zero.
Proof.
  intros Hi Hj. unfold pixel, zeros.
  rewrite lookup_replicate_2 by done. simpl. by apply lookup_replicate_2.
Qed.

Lemma set_pixel_shape (r c : nat) (img img' : image) (i j : Z) (v : F32.t) :
  set_pixel r c img i j v = Ok img' -> has_shape r c img -> has_shape r c img'.
Proof.
  unfold set_pixel. intros H [Hlen Hrows].
  destruct (norm_index i r) as [i'|] eqn:Hi; [|done].
  destruct (norm_index j c) as [j'|] eqn:Hj; [|done].
  injection H as <-. split; [by rewrite length_alter|].
  apply Forall_alter; [done|]. intros row _ Hrow. by rewrite length_insert.
Qed.

Lemma set_pixel_other (r c : nat) (img img' : image) (a b : Z) (v : F32.t)
  (i j : nat) :
  set_pixel r c img a b v = Ok img' ->
  ~ (norm_index a r = Ok i /\ norm_index b c = Ok j) ->
  pixel img' i j = pixel img i j.
Proof.
  unfold set_pixel, pixel. intros H Hne.
  destruct (norm_index a r) as [a'|] eqn:Ha; [|done].
  destruct (norm_index b c) as [b'|] eqn:Hb; [|done].
  injection H as <-.
  destruct (decide (a' = i)) as [->|Hai].
  - rewrite list_lookup_alter, decide_True by done.
    destruct (img !! i) as [row|]; [simpl|done].
    apply list_lookup_insert_ne. intros ->. by apply Hne.
  - by rewrite list_lookup_alter_ne.
Qed.

Section PixelFacts.
Variables (ppm : nat) (retardance azimuth : list F32.t).

Lemma assign_pixel_shape (imgs imgs' : image * image) (p : nat * (Z * Z)) :
  assign_pixel ppm retardance azimuth imgs p = Ok imgs' ->
  has_shape ppm ppm imgs.1 /\ has_shape ppm ppm imgs.2 ->
  has_shape ppm ppm imgs'.1 /\ has_shape ppm ppm imgs'.2.
Proof.
  destruct p as [ray_ix [a b]]. unfold assign_pixel. intros H [H1 H2].
  destruct (retardance !! ray_ix) as [rv|]; [|done].
  destruct (azimuth !! ray_ix) as [av|]; [|done].
  destruct (set_pixel ppm ppm imgs.1 a b rv) as [r'|] eqn:Hr; [|done].
  destruct (set_pixel ppm ppm imgs.2 a b av) as [a'|] eqn:Ha; [|done].
  injection H as <-. simpl. eauto using set_pixel_shape.
Qed.

Lemma assign_pixel_other (imgs imgs' : image * image) (p : nat * (Z * Z))
  (i j : nat) :
  assign_pixel ppm retardance azimuth imgs p = Ok imgs' ->
  ~ addresses ppm p.2 i j ->
  pixel imgs'.1 i j = pixel imgs.1 i j /\ pixel imgs'.2 i j = pixel imgs.2 i j.
Proof.
  destruct p as [ray_ix [a b]]. unfold assign_pixel, addresses. simpl.
  intros H Hne.
  destruct (retardance !! ray_ix) as [rv|]; [|done].
  destruct (azimuth !! ray_ix) as [av|]; [|done].
  destruct (set_pixel ppm ppm imgs.1 a b rv) as [r'|] eqn:Hr; [|done].
  destruct (set_pixel ppm ppm imgs.2 a b av) as [a'|] eqn:Ha; [|done].
  injection H as <-. simpl. eauto using set_pixel_other.
Qed.

Lemma assign_pixels_shape (l : list (nat * (Z * Z))) :
  forall imgs imgs' : image * image,
    rfoldM (assign_pixel ppm retardance azimuth) l imgs = Ok imgs' ->
    has_shape ppm ppm imgs.1 /\ has_shape ppm ppm imgs.2 ->
    has_shape ppm ppm imgs'.1 /\ has_shape ppm ppm imgs'.2.
Proof.
  induction l as [|p l IH]; intros imgs imgs' H Hs; simpl in H.
  - by injection H as <-.
  - destruct (assign_pixel ppm retardance azimuth imgs p) as [imgs1|] eqn:Hp;
      [|done].
    eapply IH; [exact H|]. eapply assign_pixel_shape; eauto.
Qed.

Lemma assign_pixels_other (l : list (nat * (Z * Z))) (i j : nat) :
  forall imgs imgs' : image * image,
    rfoldM (assign_pixel ppm retardance azimuth) l imgs = Ok imgs' ->
    Forall (fun p => ~ addresses ppm p.2 i j) l ->
    pixel imgs'.1 i j = pixel imgs.1 i j
    /\ pixel imgs'.2 i j = pixel imgs.2 i j.
Proof.
  induction l as [|p l IH]; intros imgs imgs' H Hl; simpl in H.
  - by injection H as <-.
  - destruct (assign_pixel ppm retardance azimuth imgs p) as [imgs1|] eqn:Hp;
      [|done].
    inversion Hl as [|? ? Hp' Hl']; subst.
    destruct (IH _ _ H Hl') as [-> ->].
    by eapply assign_pixel_other.
Qed.
End PixelFacts.

Lemma enumerate_snd {A : Type} (l : list A) (p : nat * A) :
  p ∈ enumerate l -> p.2 ∈ l.
Proof.
  unfold enumerate. destruct p as [k a]. intros H.
  by apply elem_of_zip_r in H.
Qed.

Section ImageFacts.
Variable rayJM : list (list JonesMatrix) -> list (list coord) -> list JonesMatrix.
Variable calc_retardance : list JonesMatrix -> list F32.t.
Variable calc_azimuth : list JonesMatrix -> list F32.t.
Variable calc_rayDir : list vec3 -> (nat -> vec3) * (nat -> vec3) * (nat -> vec3).
Variable voxRayJM1 : vox_input -> JonesMatrix.

Let images := ret_and_azim_images rayJM calc_retardance calc_azimuth
                calc_rayDir voxRayJM1.

(** A tile has the shape [(pixels_per_ml, pixels_per_ml)]. *)
Lemma ret_and_azim_images_shape self volume_in off (imgs : image * image) :
  images self volume_in off = Ok imgs ->
  let ppm := n_pixels_per_mla (optic_config self) in
  has_shape ppm ppm imgs.1 /\ has_shape ppm ppm imgs.2.
Proof.
  intros H ppm. unfold images, ret_and_azim_images in H.
  destruct (vox_ctr_idx self) as [[c0 c1] c2].
  match type of H with
  | context [calc_cummulative_JM_of_ray ?a ?b ?c ?d ?e ?f] =>
      destruct (calc_cummulative_JM_of_ray a b c d e f) as [eff|]; [|done]
  end.
  simpl in H. eapply assign_pixels_shape in H; [exact H|].
  simpl. split; apply zeros_shape.
Qed.

(** A pixel that no valid ray index addresses is zero in both images. *)
Lemma ret_and_azim_images_unaddressed self volume_in off
  (imgs : image * image) (i j : nat) :
  images self volume_in off = Ok imgs ->
  let ppm := n_pixels_per_mla (optic_config self) in
  (i < ppm)%nat -> (j < ppm)%nat ->
  Forall (fun ab => ~ addresses ppm ab i j) (ray_valid_indexes self) ->
  pixel imgs.1 i j = Some F32.zero /\ pixel imgs.2 i j = Some F32.zero.
Proof.
  intros H ppm Hi Hj Hidx. unfold images, ret_and_azim_images in H.
  destruct (vox_ctr_idx self) as [[c0 c1] c2].
  match type of H with
  | context [calc_cummulative_JM_of_ray ?a ?b ?c ?d ?e ?f] =>
      destruct (calc_cummulative_JM_of_ray a b c d e f) as [eff|]; [|done]
  end.
  simpl in H. eapply (assign_pixels_other _ _ _ _ i j) in H.
  - destruct H as [-> ->]. simpl. split; by apply zeros_pixel.
  - apply Forall_forall. intros p Hp. apply enumerate_snd in Hp.
    rewrite Forall_forall in Hidx. by apply Hidx.
Qed.
End ImageFacts.

(** C10. When the per-micro-lens image computation returns its two images,
    every pixel [(i, j)] of the tile that no entry of the valid ray indexes
    addresses is [0] in the retardance image and in the azimuth image.  An
    entry [(a, b)] is the index pair of the writes [ret_image[a, b] = ...]
    and [azim_image[a, b] = ...], so it addresses the pixel that indexing
    gives it (an entry that is not negative addresses the pixel [(a, b)]
    itself); nothing is assumed about the entries. *)
Theorem pixels_without_ray_stay_zero :
  forall rayJM calc_retardance calc_azimuth calc_rayDir voxRayJM1
         (self : BirefringentRaytraceLFM) (volume_in : VolumeLFM)
         (micro_lens_offset : Z * Z) (ret_image azim_image : image)
         (i j : nat),
    let ppm := n_pixels_per_mla (optic_config self) in
    ret_and_azim_images rayJM calc_retardance calc_azimuth calc_rayDir
      voxRayJM1 self volume_in micro_lens_offset = Ok (ret_image, azim_image) ->
    (i < ppm)%nat -> (j < ppm)%nat ->
    Forall (fun ab : Z * Z => ~ addresses ppm ab i j) (ray_valid_indexes self) ->
    pixel ret_image i j = Some F32.zero
    /\ pixel azim_image i j = Some F32.zero.
Proof.
  intros rayJM calc_retardance calc_azimuth calc_rayDir voxRayJM1 self
    volume_in off ret_image azim_image i j ppm H Hi Hj Hidx.
  change ret_image with (ret_image, azim_image).1.
  change azim_image with (ret_image, azim_image).2 at 2.
  eapply ret_and_azim_images_unaddressed; [exact H|exact Hi|exact Hj|].
  exact Hidx.
Qed.

Lemma pixels_without_ray_stay_zero_witness :
  exists ret_image azim_image,
    sample_images sample_rays_from_end (sample_volume 5 2) (0, 0)
    = Ok (ret_image, azim_image)
    /\ Forall (fun ab : Z * Z => ~ addresses 2 ab 0 1)
         (ray_valid_indexes sample_rays_from_end)
    /\ pixel ret_image 0 1 = Some F32.zero
    /\ pixel azim_image 0 1 = Some F32.zero.
Proof.
  eexists. eexists. split; [vm_compute; reflexivity|].
  assert (Hidx : Forall (fun ab : Z * Z => ~ addresses 2 ab 0 1)
                   (ray_valid_indexes sample_rays_from_end)).
  { repeat constructor; intros [Ha Hb]; vm_compute in Ha, Hb; congruence. }
  split; [exact Hidx|].
  apply (pixels_without_ray_stay_zero sample_rayJM sample_calc_retardance
           sample_calc_azimuth sample_calc_rayDir sample_voxRayJM1
           sample_rays_from_end (sample_volume 5 2) (0, 0) _ _ 0%nat 1%nat).
  - vm_compute. reflexivity.
  - simpl. lia.
  - simpl. lia.
  - exact Hidx.
Defined.

(** When the valid ray indexes are pixel coordinates, none of them negative,
    an entry addresses the pixel it names, and the pixels left at [0] are
    those that are not in the list. *)
Lemma pixels_off_the_index_list_stay_zero :
  forall rayJM calc_retardance calc_azimuth calc_rayDir voxRayJM1
         (self : BirefringentRaytraceLFM) (volume_in : VolumeLFM)
         (micro_lens_offset : Z * Z) (ret_image azim_image : image) (i j : Z),
    ret_and_azim_images rayJM calc_retardance calc_azimuth calc_rayDir
      voxRayJM1 self volume_in micro_lens_offset = Ok (ret_image, azim_image) ->
    Forall (fun ab : Z * Z => 0 <= ab.1 /\ 0 <= ab.2) (ray_valid_indexes self) ->
    0 <= i < Z.of_nat (n_pixels_per_mla (optic_config self)) ->
    0 <= j < Z.of_nat (n_pixels_per_mla (optic_config self)) ->
    (i, j) ∉ ray_valid_indexes self ->
    pixel ret_image (Z.to_nat i) (Z.to_nat j) = Some F32.zero
    /\ pixel azim_image (Z.to_nat i) (Z.to_nat j) = Some F32.zero.
Proof.
  intros rayJM calc_retardance calc_azimuth calc_rayDir voxRayJM1 self
    volume_in off ret_image azim_image i j H Hnonneg Hi Hj Hnotin.
  change ret_image with (ret_image, azim_image).1.
  change azim_image with (ret_image, azim_image).2 at 2.
  eapply ret_and_azim_images_unaddressed; [exact H|lia|lia|].
  apply Forall_forall. intros [a b] Hab [Ha Hb]. simpl in Ha, Hb.
  rewrite Forall_forall in Hnonneg. destruct (Hnonneg _ Hab) as [Ha0 Hb0].
  simpl in Ha0, Hb0.
  apply norm_index_nonneg in Ha; [|done]. apply norm_index_nonneg in Hb; [|done].
  apply Hnotin. replace i with a by lia. replace j with b by lia. done.
Qed.

(** ** Ranges and concatenation *)

Lemma py_range_length (a b : Z) : length (py_range a b) = Z.to_nat (b - a).
Proof. unfold py_range. by rewrite length_fmap, length_seq. Qed.

Lemma elem_of_py_range (a b k : Z) : k ∈ py_range a b <-> a <= k < b.
Proof.
  unfold py_range. rewrite list_elem_of_fmap. split.
  - intros (i & -> & Hi). apply elem_of_seq in Hi. lia.
  - intros Hk. exists (Z.to_nat (k - a)). split; [lia|].
    apply elem_of_seq. lia.
Qed.

Lemma ncols_shape (k ppm : nat) (img : image) :
  has_shape (k * ppm) ppm img -> (0 < k)%nat -> ncols img = ppm.
Proof.
  intros [Hlen Hrows] Hk. destruct img as [|row img]; simpl in *.
  - destruct ppm; [done|lia].
  - by inversion Hrows.
Qed.

Lemma cat0_shape (k ppm : nat) (a b : image) :
  has_shape (k * ppm) ppm a -> (0 < k)%nat -> has_shape ppm ppm b ->
  cat0 a b = Ok (a ++ b) /\ has_shape ((k + 1) * ppm) ppm (a ++ b).
Proof.
  intros Ha Hk Hb. unfold cat0.
  rewrite (ncols_shape k ppm a Ha Hk).
  rewrite (ncols_shape 1 ppm b) by (rewrite ?Nat.mul_1_l; done || lia).
  rewrite Nat.eqb_refl. split; [done|].
  destruct Ha as [Hla Hra], Hb as [Hlb Hrb]. split.
  - rewrite length_app. lia.
  - by apply Forall_app.
Qed.

Lemma zip_with_app_rows (c1 c2 : nat) (a : image) :
  forall b : image,
    Forall (fun row => length row = c1) a ->
    Forall (fun row => length row = c2) b ->
    Forall (fun row => length row = (c1 + c2)%nat) (zip_with app a b).
Proof.
  induction a as [|ra a IH]; intros b Ha Hb; simpl; [constructor|].
  destruct b as [|rb b]; [constructor|].
  inversion Ha; inversion Hb; subst. constructor.
  - by rewrite length_app.
  - by apply IH.
Qed.

Lemma cat1_shape (N c1 c2 : nat) (a b : image) :
  has_shape N c1 a -> has_shape N c2 b ->
  cat1 a b = Ok (zip_with app a b)
  /\ has_shape N (c1 + c2) (zip_with app a b).
Proof.
  intros [Hla Hra] [Hlb Hrb]. unfold cat1.
  rewrite Hla, Hlb, Nat.eqb_refl. split; [done|]. split.
  - rewrite length_zip_with. lia.
  - by apply zip_with_app_rows.
Qed.

(** ** The tiler *)

Section TilerFacts.
Variable rayJM : list (list JonesMatrix) -> list (list coord) -> list JonesMatrix.
Variable calc_retardance : list JonesMatrix -> list F32.t.
Variable calc_azimuth : list JonesMatrix -> list F32.t.
Variable calc_rayDir : list vec3 -> (nat -> vec3) * (nat -> vec3) * (nat -> vec3).
Variable voxRayJM1 : vox_input -> JonesMatrix.
Variable self : BirefringentRaytraceLFM.
Variable volume_in : VolumeLFM.

Let images := ret_and_azim_images rayJM calc_retardance calc_azimuth
                calc_rayDir voxRayJM1 self volume_in.
Let ppm := n_pixels_per_mla (optic_config self).
Let s := n_voxels_per_ml (optic_config self).

Lemma add_to_row_ok (ml_ii ml_jj : Z) (k : nat) acc imgs :
  row_ok ppm k acc ->
  images (s * ml_ii, s * ml_jj) = Ok imgs ->
  exists acc',
    add_to_row rayJM calc_retardance calc_azimuth calc_rayDir voxRayJM1
      self volume_in ml_ii acc ml_jj = ([(s * ml_ii, s * ml_jj)], Ok acc')
    /\ row_ok ppm (k + 1) acc'.
Proof.
  intros Hacc Himgs.
  destruct (ret_and_azim_images_shape _ _ _ _ _ _ _ _ _ Himgs) as [H1 H2].
  fold ppm in H1, H2.
  unfold add_to_row, tile, tbind. fold s. fold images. rewrite Himgs. simpl.
  destruct acc as [row|]; simpl in *.
  - destruct Hacc as (Hk & Hr & Ha).
    destruct (cat0_shape k ppm _ _ Hr Hk H1) as [-> Hr'].
    destruct (cat0_shape k ppm _ _ Ha Hk H2) as [-> Ha'].
    simpl. eexists. split; [reflexivity|]. simpl. split; [lia|]. split; assumption.
  - subst k. eexists. split; [reflexivity|]. simpl.
    rewrite Nat.add_0_r. split; [lia|]. split; assumption.
Qed.

Lemma row_fold_ok (ml_ii : Z) (l : list Z) :
  forall (k : nat) acc,
    row_ok ppm k acc ->
    (forall ml_jj, ml_jj ∈ l -> exists imgs, images (s * ml_ii, s * ml_jj) = Ok imgs) ->
    exists acc',
      tfoldM (add_to_row rayJM calc_retardance calc_azimuth calc_rayDir
                voxRayJM1 self volume_in ml_ii) l acc
      = ((fun ml_jj => (s * ml_ii, s * ml_jj)) <$> l, Ok acc')
      /\ row_ok ppm (k + length l) acc'.
Proof.
  induction l as [|ml_jj l IH]; intros k acc Hacc Hl; simpl.
  - exists acc. split; [done|]. by rewrite Nat.add_0_r.
  - destruct (Hl ml_jj) as [imgs Himgs]; [by left|].
    destruct (add_to_row_ok ml_ii ml_jj k acc imgs Hacc Himgs) as (acc1 & E1 & H1).
    destruct (IH (k + 1)%nat acc1 H1) as (acc' & E' & H').
    { intros jj Hjj. apply Hl. by right. }
    exists acc'. split.
    + unfold tbind. rewrite E1. simpl. by rewrite E'.
    + by replace (k + S (length l))%nat with (k + 1 + length l)%nat by lia.
Qed.

Lemma add_row_ok (n_ml_half ml_ii : Z) (m : nat) acc :
  let grid := py_range (- n_ml_half) (n_ml_half + 1) in
  let N := (length grid * ppm)%nat in
  (0 < length grid)%nat ->
  full_ok ppm N m acc ->
  (forall ml_jj, ml_jj ∈ grid -> exists imgs, images (s * ml_ii, s * ml_jj) = Ok imgs) ->
  exists acc',
    add_row rayJM calc_retardance calc_azimuth calc_rayDir voxRayJM1
      self volume_in n_ml_half acc ml_ii
    = ((fun ml_jj => (s * ml_ii, s * ml_jj)) <$> grid, Ok acc')
    /\ full_ok ppm N (m + 1) acc'.
Proof.
  intros grid N Hgrid Hacc Hl.
  destruct (row_fold_ok ml_ii grid 0 None eq_refl Hl) as (row & E & Hrow).
  unfold add_row, tbind. fold grid. rewrite E. simpl.
  destruct row as [row|]; simpl in Hrow; [|lia].
  destruct Hrow as (_ & Hr & Ha). fold N in Hr, Ha.
  destruct acc as [full|]; simpl in *.
  - destruct Hacc as (Hm & Hfr & Hfa).
    destruct (cat1_shape N _ _ _ _ Hfr Hr) as [-> Hr'].
    destruct (cat1_shape N _ _ _ _ Hfa Ha) as [-> Ha'].
    simpl. rewrite app_nil_r. eexists. split; [reflexivity|]. simpl.
    replace ((m + 1) * ppm)%nat with (m * ppm + ppm)%nat by lia.
    split; [lia|]. split; assumption.
  - subst m. rewrite app_nil_r. eexists. split; [reflexivity|]. simpl.
    rewrite Nat.add_0_r. split; [lia|]. split; assumption.
Qed.

Lemma grid_fold_ok (n_ml_half : Z) (l : list Z) :
  let grid := py_range (- n_ml_half) (n_ml_half + 1) in
  let N := (length grid * ppm)%nat in
  (0 < length grid)%nat ->
  forall (m : nat) acc,
    full_ok ppm N m acc ->
    (forall ml_ii ml_jj, ml_ii ∈ l -> ml_jj ∈ grid ->
       exists imgs, images (s * ml_ii, s * ml_jj) = Ok imgs) ->
    exists acc',
      tfoldM (add_row rayJM calc_retardance calc_azimuth calc_rayDir
                voxRayJM1 self volume_in n_ml_half) l acc
      = (ml_ii ← l; (fun ml_jj => (s * ml_ii, s * ml_jj)) <$> grid, Ok acc')
      /\ full_ok ppm N (m + length l) acc'.
Proof.
  intros grid N Hgrid.
  induction l as [|ml_ii l IH]; intros m acc Hacc Hl; simpl.
  - exists acc. split; [done|]. by rewrite Nat.add_0_r.
  - destruct (add_row_ok n_ml_half ml_ii m acc Hgrid Hacc) as (acc1 & E1 & H1).
    { intros jj Hjj. apply Hl; [by left|done]. }
    destruct (IH (m + 1)%nat acc1 H1) as (acc' & E' & H').
    { intros ii jj Hii Hjj. apply Hl; [by right|done]. }
    exists acc'. split.
    + unfold tbind. rewrite E1. simpl. by rewrite E'.
    + by replace (m + S (length l))%nat with (m + 1 + length l)%nat by lia.
Qed.

(** The tiler on a configuration that passes the fit check, when every
    tile can be computed: [2 * floor(n/2) + 1] micro-lenses are visited
    along each axis. *)
Lemma ray_trace_through_volume_shape :
  let n := n_micro_lenses (optic_config self) in
  let n_ml_half := floor_half n in
  let grid := py_range (- n_ml_half) (n_ml_half + 1) in
  let side := (Z.to_nat (2 * n_ml_half + 1) * ppm)%nat in
  0 <= n_ml_half ->
  voxel_span_per_ml self * n < Z.of_nat (Dy volume_in) ->
  (forall ml_ii ml_jj, ml_ii ∈ grid -> ml_jj ∈ grid ->
     exists imgs, images (s * ml_ii, s * ml_jj) = Ok imgs) ->
  exists full_img_r full_img_a,
    ray_trace_through_volume rayJM calc_retardance calc_azimuth calc_rayDir
      voxRayJM1 self volume_in
    = (tile_offsets s n_ml_half, Ok (Some (full_img_r, full_img_a)))
    /\ has_shape side side full_img_r /\ has_shape side side full_img_a.
Proof.
  intros n n_ml_half grid side Hh Hfit Htiles.
  assert (Hlen : length grid = Z.to_nat (2 * n_ml_half + 1)).
  { unfold grid. rewrite py_range_length. f_equal. lia. }
  assert (Hgrid : (0 < length grid)%nat) by lia.
  destruct (grid_fold_ok n_ml_half grid Hgrid 0 None eq_refl Htiles)
    as (acc & E & Hacc).
  unfold ray_trace_through_volume. fold n. fold n_ml_half. simpl.
  destruct (Z.ltb_spec (voxel_span_per_ml self * n) (Z.of_nat (Dy volume_in)));
    [simpl|lia].
  fold grid. rewrite E.
  destruct acc as [[r a]|]; simpl in Hacc; [|lia].
  destruct Hacc as (_ & Hr & Ha). fold grid in Hr, Ha.
  rewrite Hlen in Hr, Ha.
  exists r, a. split; [reflexivity|]. split; assumption.
Qed.
End TilerFacts.

(** The fit check of the tiler along the first lateral axis: when the
    footprint [voxel_span_per_ml * n_micro_lenses] is not smaller than
    [volume_shape[0]], the y extent, the tiler raises [AssertionError] and
    has not computed any tile. *)
Lemma tiler_rejects_footprint_beyond_y_extent :
  forall rayJM calc_retardance calc_azimuth calc_rayDir voxRayJM1
         (self : BirefringentRaytraceLFM) (volume_in : VolumeLFM),
    ~ (voxel_span_per_ml self * n_micro_lenses (optic_config self)
       < Z.of_nat (Dy volume_in)) ->
    ray_trace_through_volume rayJM calc_retardance calc_azimuth calc_rayDir
      voxRayJM1 self volume_in = ([], Raise AssertionError).
Proof.
  intros rayJM calc_retardance calc_azimuth calc_rayDir voxRayJM1 self
    volume_in Hfit.
  unfold ray_trace_through_volume. simpl.
  destruct (Z.ltb_spec
              (voxel_span_per_ml self * n_micro_lenses (optic_config self))
              (Z.of_nat (Dy volume_in))); [lia|reflexivity].
Qed.

Lemma tiler_rejects_footprint_beyond_y_extent_witness :
  ~ (voxel_span_per_ml (sample_rays 1 5 2)
     * n_micro_lenses (optic_config (sample_rays 1 5 2))
     < Z.of_nat (Dy (sample_volume 5 2)))
  /\ sample_tiler (sample_rays 1 5 2) (sample_volume 5 2)
     = ([], Raise AssertionError).
Proof.
  assert (H : ~ (voxel_span_per_ml (sample_rays 1 5 2)
                 * n_micro_lenses (optic_config (sample_rays 1 5 2))
                 < Z.of_nat (Dy (sample_volume 5 2)))) by (simpl; lia).
  split; [exact H|].
  exact (tiler_rejects_footprint_beyond_y_extent sample_rayJM
           sample_calc_retardance sample_calc_azimuth sample_calc_rayDir
           sample_voxRayJM1 (sample_rays 1 5 2) (sample_volume 5 2) H).
Defined.

(** C4. The tiler shifts the micro-lens offset along y and along x by the
    same range and step, but its fit check ("Check if the volume_size can fit
    these micro_lenses") reads [volume_shape[0]] only.  With a footprint of 2
    voxels, a y extent of 5 and an x extent of 1 the footprint does not fit
    inside the volume along x, and the tiler raises no error: it computes the
    tile of offset [(0, 0)] and returns the images. *)
Theorem tiler_accepts_footprint_beyond_x_extent :
  voxel_span_per_ml (sample_rays 1 2 0)
  * n_micro_lenses (optic_config (sample_rays 1 2 0))
  < Z.of_nat (Dy (sample_volume 1 0))
  /\ ~ (voxel_span_per_ml (sample_rays 1 2 0)
        * n_micro_lenses (optic_config (sample_rays 1 2 0))
        < Z.of_nat (Dx (sample_volume 1 0)))
  /\ exists imgs,
       sample_tiler (sample_rays 1 2 0) (sample_volume 1 0)
       = ([(0, 0)], Ok (Some imgs)).
Proof.
  split; [simpl; lia|]. split; [simpl; lia|].
  eexists. vm_compute. reflexivity.
Qed.

(** C5 (amended). For an odd number [n] of micro-lenses that passes the fit
    check, and when each tile can be computed, the tiler visits the
    micro-lens indices of the centred range [-n/2 .. n/2] along both axes,
    row by row, and both assembled images have the shape
    [(n * pixels_per_ml, n * pixels_per_ml)]. *)
Theorem tiler_image_shape_odd_lenses :
  forall rayJM calc_retardance calc_azimuth calc_rayDir voxRayJM1
         (self : BirefringentRaytraceLFM) (volume_in : VolumeLFM),
    let n := n_micro_lenses (optic_config self) in
    let ppm := n_pixels_per_mla (optic_config self) in
    let s := n_voxels_per_ml (optic_config self) in
    let grid := py_range (- floor_half n) (floor_half n + 1) in
    0 < n -> Z.odd n = true ->
    voxel_span_per_ml self * n < Z.of_nat (Dy volume_in) ->
    (forall ml_ii ml_jj, ml_ii ∈ grid -> ml_jj ∈ grid ->
       exists imgs,
         ret_and_azim_images rayJM calc_retardance calc_azimuth calc_rayDir
           voxRayJM1 self volume_in (s * ml_ii, s * ml_jj) = Ok imgs) ->
    (forall k, k ∈ grid <-> - (n / 2) <= k <= n / 2)
    /\ exists full_img_r full_img_a,
         ray_trace_through_volume rayJM calc_retardance calc_azimuth
           calc_rayDir voxRayJM1 self volume_in
         = (tile_offsets s (floor_half n), Ok (Some (full_img_r, full_img_a)))
         /\ has_shape (Z.to_nat n * ppm) (Z.to_nat n * ppm) full_img_r
         /\ has_shape (Z.to_nat n * ppm) (Z.to_nat n * ppm) full_img_a.
Proof.
  intros rayJM calc_retardance calc_azimuth calc_rayDir voxRayJM1 self
    volume_in n ppm s grid Hn Hodd Hfit Htiles.
  assert (Hhalf : 2 * floor_half n + 1 = n).
  { unfold floor_half. rewrite (Z.div_mod n 2) at 2 by lia.
    rewrite Zmod_odd, Hodd. reflexivity. }
  split.
  - intros k. unfold grid. rewrite elem_of_py_range.
    unfold floor_half. lia.
  - destruct (ray_trace_through_volume_shape rayJM calc_retardance
                calc_azimuth calc_rayDir voxRayJM1 self volume_in)
      as (r & a & E & Hr & Ha);
      [apply Z.div_pos; [exact (Z.lt_le_incl _ _ Hn)|lia]
      |exact Hfit|exact Htiles|].
    fold n in Hr, Ha. rewrite Hhalf in Hr, Ha.
    exists r, a. split; [exact E|]. split; assumption.
Qed.

Lemma tiler_image_shape_odd_lenses_witness :
  exists full_img_r full_img_a,
    sample_tiler (sample_rays 3 1 2) (sample_volume 5 2)
    = (tile_offsets 1 1, Ok (Some (full_img_r, full_img_a)))
    /\ has_shape 6 6 full_img_r /\ has_shape 6 6 full_img_a.
Proof.
  refine (proj2 (tiler_image_shape_odd_lenses sample_rayJM
           sample_calc_retardance sample_calc_azimuth sample_calc_rayDir
           sample_voxRayJM1 (sample_rays 3 1 2) (sample_volume 5 2)
           _ _ _ _)).
  - simpl. lia.
  - reflexivity.
  - simpl. lia.
  - intros ml_ii ml_jj Hii Hjj.
    apply elem_of_py_range in Hii, Hjj.
    change (floor_half _) with 1 in Hii, Hjj.
    assert (Ei : ml_ii = -1 \/ ml_ii = 0 \/ ml_ii = 1)
      by (destruct Hii as [Hi1 Hi2]; lia).
    assert (Ej : ml_jj = -1 \/ ml_jj = 0 \/ ml_jj = 1)
      by (destruct Hjj as [Hj1 Hj2]; lia).
    destruct Ei as [->|[->| ->]]; destruct Ej as [->|[->| ->]];
      eexists; vm_compute; reflexivity.
Defined.

(** C5 as stated fails for an even number of micro-lenses: with
    [n_micro_lenses = 2] and tiles of 2 by 2 pixels the fit check passes,
    three micro-lenses are visited along each axis, and the retardance image
    does not have the shape [(2 * 2, 2 * 2)] (it has 6 rows). *)
Lemma tiler_image_shape_even_lenses :
  voxel_span_per_ml (sample_rays 2 1 2)
  * n_micro_lenses (optic_config (sample_rays 2 1 2))
  < Z.of_nat (Dy (sample_volume 5 2))
  /\ exists full_img_r full_img_a,
       sample_tiler (sample_rays 2 1 2) (sample_volume 5 2)
       = (tile_offsets 1 1, Ok (Some (full_img_r, full_img_a)))
       /\ length full_img_r = 6%nat
       /\ ~ has_shape (Z.to_nat 2 * 2) (Z.to_nat 2 * 2) full_img_r.
Proof.
  split; [simpl; lia|].
  eexists. eexists. split; [vm_compute; reflexivity|].
  split; [reflexivity|]. intros [Hlen _]. discriminate Hlen.
Qed.

(** C6 (amended). With [n_micro_lenses = 1] and a volume that passes the
    fit check, the tiler makes one call of the per-micro-lens image
    computation, at the micro-lens offset [(0, 0)], and returns what that
    call returns: its two images, or the exception it raises. *)
Theorem single_lens_tiling_is_one_tile :
  forall rayJM calc_retardance calc_azimuth calc_rayDir voxRayJM1
         (self : BirefringentRaytraceLFM) (volume_in : VolumeLFM),
    n_micro_lenses (optic_config self) = 1 ->
    voxel_span_per_ml self < Z.of_nat (Dy volume_in) ->
    ray_trace_through_volume rayJM calc_retardance calc_azimuth calc_rayDir
      voxRayJM1 self volume_in
    = ([(0, 0)],
       match ret_and_azim_images rayJM calc_retardance calc_azimuth
               calc_rayDir voxRayJM1 self volume_in (0, 0) with
       | Ok imgs => Ok (Some imgs)
       | Raise e => Raise e
       end).
Proof.
  intros rayJM calc_retardance calc_azimuth calc_rayDir voxRayJM1 self
    volume_in Hn Hfit.
  unfold ray_trace_through_volume. rewrite Hn. simpl.
  destruct (Z.ltb_spec (voxel_span_per_ml self * 1) (Z.of_nat (Dy volume_in)));
    [simpl|lia].
  change (floor_half 1) with 0. change (py_range (- 0) (0 + 1)) with [0].
  simpl. unfold add_row. change (py_range (- 0) (0 + 1)) with [0]. simpl.
  unfold add_to_row, tile, tbind. simpl. rewrite !Z.mul_0_r.  destruct (ret_and_azim_images rayJM calc_retardance calc_azimuth
              calc_rayDir voxRayJM1 self volume_in (0, 0)); reflexivity.
Qed.

Lemma single_lens_tiling_is_one_tile_witness :
  sample_tiler (sample_rays 1 1 2) (sample_volume 5 2)
  = ([(0, 0)],
     match sample_images (sample_rays 1 1 2) (sample_volume 5 2) (0, 0) with
     | Ok imgs => Ok (Some imgs)
     | Raise e => Raise e
     end).
Proof.
  apply (single_lens_tiling_is_one_tile sample_rayJM sample_calc_retardance
           sample_calc_azimuth sample_calc_rayDir sample_voxRayJM1
           (sample_rays 1 1 2) (sample_volume 5 2)).
  - reflexivity.
  - simpl. lia.
Defined.

(** C6 as stated fails for a volume that does not pass the fit check: with
    one micro-lens whose span of 5 voxels equals the y extent, the direct
    call with offset zero returns two images and the tiler raises
    [AssertionError]. *)
Lemma single_lens_tiling_differs_without_fit :
  n_micro_lenses (optic_config (sample_rays 1 5 2)) = 1
  /\ (exists imgs,
        sample_images (sample_rays 1 5 2) (sample_volume 5 2) (0, 0) = Ok imgs)
  /\ (sample_tiler (sample_rays 1 5 2) (sample_volume 5 2)).2
     = Raise AssertionError.
Proof.
  split; [reflexivity|]. split; [eexists; vm_compute; reflexivity|].
  vm_compute. reflexivity.
Qed.

(** ** Volume presets *)

(** C8 at the volume that [init_volume] builds for [init_mode='ellipsoid']
    with [volume_shape = [11, 11, 11]]: the centre voxel [(5, 5, 5)] lies
    inside the mask, its birefringence is [0.1] and its axis is
    [(0, 0, 0)], which is not a unit vector within a tolerance of
    [0.001]. *)
Theorem ellipsoid_centre_voxel_has_zero_axis :
  voxel_of (generate_ellipsoid_volume (11, 11, 11)%nat default_center
              init_radius default_alpha init_delta_n) 5 5 5
  = Ok (f32_tenth, (F32.zero, F32.zero, F32.zero))
  /\ F32.eqb f32_tenth F32.zero = false
  /\ unit_axis_within f32_tolerance
       (f32_tenth, (F32.zero, F32.zero, F32.zero)) = false.
Proof.
  split; [vm_compute; reflexivity|]. split; vm_compute; reflexivity.
Qed.

(** C9 at a draw in which the three axis components of a voxel are [0.0]:
    [generate_random_volume] divides them by the norm [0.0] and the axis of
    the voxel is [(NaN, NaN, NaN)]. *)
Theorem random_volume_zero_draw_is_nan :
  voxel_at (generate_random_volume (1, 1, 1)%nat
              (fun _ _ _ => f32_drawn_delta_n) (fun _ _ _ => F32.zero)
              (fun _ _ _ => F32.zero) (fun _ _ _ => F32.zero)) 0 0 0
  = (f32_drawn_delta_n, (F32.nan, F32.nan, F32.nan))
  /\ is_number F32.nan = false.
Proof.
  split; vm_compute; reflexivity.
Qed.

(** * Further properties of the ray tracer *)

(** ** Masked gathers and scatters *)

Lemma mask_sum_cons (b : bool) (mask : list bool) :
  mask_sum (b :: mask) = ((if b then 1 else 0) + mask_sum mask)%nat.
Proof.
  unfold mask_sum. destruct b; reflexivity.
Qed.

Lemma mask_sum_pos (mask : list bool) (k : nat) :
  mask !! k = Some true -> (0 < mask_sum mask)%nat.
Proof.
  revert k. induction mask as [|b mask IH]; intros k Hk; [done|].
  rewrite mask_sum_cons. destruct k as [|k]; simpl in Hk.
  - injection Hk as ->. lia.
  - specialize (IH k Hk). lia.
Qed.

Lemma select_length {A : Type} (mask : list bool) :
  forall l : list A,
    length l = length mask -> length (select mask l) = mask_sum mask.
Proof.
  induction mask as [|b mask IH]; intros l Hl; [by destruct l|].
  destruct l as [|a l]; [done|]. simpl in Hl. rewrite mask_sum_cons.
  destruct b; simpl; rewrite IH by lia; reflexivity.
Qed.

Lemma masked_assign_lookup_true {A B : Type} (f : A -> B) (dst : list B) :
  forall (mask : list bool) (l : list A) (k : nat) (x : A),
    length dst = length l ->
    mask !! k = Some true ->
    l !! k = Some x ->
    masked_assign dst mask (f <$> select mask l) !! k = Some (f x).
Proof.
  induction dst as [|d dst IH]; intros mask l k x Hlen Hmask Hl.
  - destruct l; [by destruct k|done].
  - destruct l as [|a l]; [done|]. destruct mask as [|b mask]; [done|].
    simpl in Hlen. destruct k as [|k]; simpl in Hmask, Hl.
    + injection Hmask as ->. injection Hl as ->. reflexivity.
    + destruct b; simpl; apply IH; (lia || done).
Qed.

Lemma rmapM_length {A B : Type} (f : A -> result B) (l : list A) :
  forall bs, rmapM f l = Ok bs -> length bs = length l.
Proof.
  induction l as [|a l IH]; intros bs H; simpl in H.
  - by injection H as <-.
  - destruct (f a) as [b|]; [|done]. simpl in H.
    destruct (rmapM f l) as [bs'|]; [|done]. simpl in H.
    injection H as <-. simpl. by rewrite (IH bs').
Qed.

Lemma rmapM_ok {A B : Type} (f : A -> result B) (l : list A) :
  (forall a, a ∈ l -> exists b, f a = Ok b) ->
  exists bs, rmapM f l = Ok bs.
Proof.
  induction l as [|a l IH]; intros H; simpl; [by eexists|].
  destruct (H a) as [b ->]; [by left|].
  destruct IH as [bs ->]; [intros a' Ha'; apply H; by right|].
  by eexists.
Qed.

Lemma rmapM_raise {A B : Type} (f : A -> result B) (l : list A) (e : exn) :
  (forall a e', f a = Raise e' -> e' = e) ->
  forall a, a ∈ l -> f a = Raise e -> rmapM f l = Raise e.
Proof.
  intros Hf. induction l as [|a0 l IH]; intros a Ha Hfa; [by inversion Ha|].
  simpl. destruct (f a0) as [b0|e0] eqn:E0.
  - simpl. apply elem_of_cons in Ha as [->|Ha]; [congruence|].
    by rewrite (IH a Ha Hfa).
  - simpl. f_equal. by eapply Hf.
Qed.

Lemma omap_lookup_length (voxels_of_segs : list (list coord)) (m : nat) :
  length (omap (fun vx : list coord => vx !! m) voxels_of_segs)
  = mask_sum ((fun vx : list coord => Nat.ltb m (length vx)) <$> voxels_of_segs).
Proof.
  induction voxels_of_segs as [|vx l IH]; [done|].
  rewrite fmap_cons, mask_sum_cons. cbn [omap list_omap].
  destruct (vx !! m) as [v|] eqn:E.
  - apply lookup_lt_Some in E. apply Nat.ltb_lt in E. rewrite E.
    cbn [length]. f_equal. exact IH.
  - apply lookup_ge_None in E.
    destruct (Nat.ltb_spec m (length vx)); [lia|]. exact IH.
Qed.

(** ** A step of the accumulator *)

(** X1. In a traversal step, a ray whose voxel has [Delta_n != 0] gets the
    matrix that [voxRayJM] computes from its own tuple: the masked
    assignment puts every result back at the position of the ray it was
    computed for. *)
Theorem birefringent_voxel_gets_its_own_matrix :
  forall (voxRayJM1 : vox_input -> JonesMatrix) (inputs : list vox_input)
         (k : nat) (x : vox_input),
    inputs !! k = Some x ->
    F32.eqb (Delta_n x) F32.zero = false ->
    (JM_of_step voxRayJM1 inputs).1 !! k = Some (voxRayJM1 x).
Proof.
  intros voxRayJM1 inputs k x Hk Hx.
  assert (Hvalid : valid_voxel inputs !! k = Some true).
  { unfold valid_voxel. rewrite list_lookup_fmap, Hk. simpl. by rewrite Hx. }
  assert (Hall : forallb params_all_zero inputs = false).
  { apply not_true_is_false. intros Hall.
    rewrite forallb_forall in Hall.
    assert (Hin : In x inputs).
    { apply list_elem_of_In. eapply list_elem_of_lookup_2; eauto. }
    specialize (Hall x Hin). unfold params_all_zero in Hall.
    destruct (opticAxis x) as [[a1 a2] a3]. rewrite Hx in Hall. done. }
  unfold JM_of_step. rewrite Hall. simpl.
  destruct (Nat.ltb_spec 0 (mask_sum (valid_voxel inputs))) as [_|Hsum].
  - simpl. unfold voxRayJM.
    apply masked_assign_lookup_true; [by rewrite length_replicate|done..].
  - apply mask_sum_pos in Hvalid. lia.
Qed.

Lemma birefringent_voxel_gets_its_own_matrix_witness :
  (JM_of_step sample_voxRayJM1 sample_inputs).1 !! 1%nat
  = Some (sample_voxRayJM1
            (mkInput f32_tenth (F32.one, F32.zero, F32.zero)
               ((F32.one, F32.zero, F32.zero), (F32.one, F32.zero, F32.zero),
                (F32.one, F32.zero, F32.zero)) F32.one)).
Proof.
  apply (birefringent_voxel_gets_its_own_matrix sample_voxRayJM1
           sample_inputs 1); reflexivity.
Defined.

Section AccumulatorFacts.
Variable rayJM : list (list JonesMatrix) -> list (list coord) -> list JonesMatrix.
Variable calc_rayDir : list vec3 -> (nat -> vec3) * (nat -> vec3) * (nat -> vec3).
Variable voxRayJM1 : vox_input -> JonesMatrix.

Lemma gather_ok (vol : VolumeLFM) (off : Z * Z) (v : coord) :
  displaced_in_range vol off v -> exists p, gather vol off v = Ok p.
Proof.
  destruct v as [[v0 v1] v2]. unfold displaced_in_range, gather, norm_index.
  intros (H0 & H1 & H2).
  repeat match goal with
         | |- context [Z.leb ?a ?b] => destruct (Z.leb_spec a b); try lia
         | |- context [Z.ltb ?a ?b] => destruct (Z.ltb_spec a b); try lia
         end; simpl; by eexists.
Qed.

Lemma gather_raise (vol : VolumeLFM) (off : Z * Z) (v : coord) :
  ~ displaced_in_range vol off v -> gather vol off v = Raise IndexError.
Proof.
  destruct v as [[v0 v1] v2]. unfold displaced_in_range, gather, norm_index.
  intros H.
  repeat match goal with
         | |- context [Z.leb ?a ?b] => destruct (Z.leb_spec a b); simpl
         | |- context [Z.ltb ?a ?b] => destruct (Z.ltb_spec a b); simpl
         end; try reflexivity; exfalso; apply H; lia.
Qed.

Lemma gather_raises_IndexError (vol : VolumeLFM) (off : Z * Z) (v : coord)
  (e : exn) :
  gather vol off v = Raise e -> e = IndexError.
Proof.
  destruct v as [[v0 v1] v2]. unfold gather, norm_index.
  repeat case_match; simpl; congruence.
Qed.

Lemma step_inputs_raises_IndexError self vol off (m : nat) (e : exn) :
  step_inputs calc_rayDir self vol off m = Raise e -> e = IndexError.
Proof.
  unfold step_inputs.
  destruct (calc_rayDir (ray_valid_direction self)) as [[d0 d1] d2].
  destruct (rmapM (gather vol off)
              (omap (fun vx : list coord => vx !! m) (ray_vol_colli_indexes self)))
    as [ps|e'] eqn:E; simpl; [done|].
  intros [= <-].
  assert (Hex : exists v, v ∈ omap (fun vx : list coord => vx !! m)
                              (ray_vol_colli_indexes self)
                          /\ gather vol off v = Raise e').
  { clear -E. revert E.
    induction (omap (fun vx : list coord => vx !! m)
                 (ray_vol_colli_indexes self)) as [|v l IH]; simpl; [done|].
    destruct (gather vol off v) as [p|e0] eqn:Ev; simpl.
    - destruct (rmapM (gather vol off) l) as [ps|e1]; simpl; [done|].
      intros [= <-]. destruct IH as (v' & Hv' & Hg); [done|].
      exists v'. split; [by right|done].
    - intros [= <-]. exists v. split; [by left|done]. }
  destruct Hex as (v & _ & Hg). by eapply gather_raises_IndexError.
Qed.
End AccumulatorFacts.

Lemma rmapM_lookup {A B : Type} (f : A -> result B) (l : list A) :
  forall bs (k : nat) (b : B),
    rmapM f l = Ok bs -> bs !! k = Some b ->
    exists a, l !! k = Some a /\ f a = Ok b.
Proof.
  induction l as [|a l IH]; intros bs k b H Hk; simpl in H.
  - injection H as <-. done.
  - destruct (f a) as [b0|] eqn:E0; [|done]. simpl in H.
    destruct (rmapM f l) as [bs'|] eqn:E; [|done]. simpl in H.
    injection H as <-. destruct k as [|k]; simpl in Hk.
    + injection Hk as <-. by exists a.
    + by apply (IH bs').
Qed.

Lemma rays_with_voxels_sum (voxels_of_segs : list (list coord)) (m : nat) :
  mask_sum (rays_with_voxels voxels_of_segs m) = rays_at_step voxels_of_segs m.
Proof.
  unfold rays_with_voxels, rays_at_step.
  induction voxels_of_segs as [|vx l IH]; [done|].
  rewrite fmap_cons, mask_sum_cons, filter_cons, IH.
  destruct (Nat.ltb_spec m (length vx)).
  - rewrite decide_True by done. reflexivity.
  - rewrite decide_False by lia. reflexivity.
Qed.

Section AccumulatorShape.
Variable rayJM : list (list JonesMatrix) -> list (list coord) -> list JonesMatrix.
Variable calc_rayDir : list vec3 -> (nat -> vec3) * (nat -> vec3) * (nat -> vec3).
Variable voxRayJM1 : vox_input -> JonesMatrix.

Lemma step_inputs_length self vol off (m : nat) (inputs : list vox_input) :
  step_inputs calc_rayDir self vol off m = Ok inputs ->
  length inputs = rays_at_step (ray_vol_colli_indexes self) m.
Proof.
  unfold step_inputs.
  destruct (calc_rayDir (ray_valid_direction self)) as [[d0 d1] d2].
  destruct (rmapM (gather vol off)
              (omap (fun vx : list coord => vx !! m) (ray_vol_colli_indexes self)))
    as [ps|] eqn:E; simpl; [|done].
  intros [= <-]. apply rmapM_length in E.
  rewrite omap_lookup_length in E. fold (rays_with_voxels (ray_vol_colli_indexes self) m) in E.
  rewrite length_zip_with, length_zip, E.
  rewrite !select_length
    by (rewrite length_fmap, length_seq; unfold rays_with_voxels;
        by rewrite length_fmap).
  rewrite rays_with_voxels_sum. lia.
Qed.

Lemma step_inputs_ok self vol off (m : nat) :
  (forall vx v, vx ∈ ray_vol_colli_indexes self -> vx !! m = Some v ->
     displaced_in_range vol off v) ->
  exists inputs, step_inputs calc_rayDir self vol off m = Ok inputs.
Proof.
  intros H. unfold step_inputs.
  destruct (calc_rayDir (ray_valid_direction self)) as [[d0 d1] d2].
  destruct (rmapM_ok (gather vol off)
              (omap (fun vx : list coord => vx !! m) (ray_vol_colli_indexes self)))
    as [ps ->].
  - intros v Hv. apply list_elem_of_omap in Hv as (vx & Hvx & Hm).
    apply gather_ok. by eapply H.
  - simpl. by eexists.
Qed.

Lemma step_inputs_raise self vol off (m : nat) (vx : list coord) (v : coord) :
  vx ∈ ray_vol_colli_indexes self -> vx !! m = Some v ->
  ~ displaced_in_range vol off v ->
  step_inputs calc_rayDir self vol off m = Raise IndexError.
Proof.
  intros Hvx Hm Hv. unfold step_inputs.
  destruct (calc_rayDir (ray_valid_direction self)) as [[d0 d1] d2].
  rewrite (rmapM_raise (gather vol off) _ IndexError) with (a := v).
  - reflexivity.
  - intros a e'. apply gather_raises_IndexError.
  - apply list_elem_of_omap. by exists vx.
  - by apply gather_raise.
Qed.
End AccumulatorShape.

(** X2. When the accumulator returns, [rayJM] has been called with the
    voxel lists of the rays and with a [JM_list] of one entry for each of
    the [ray_vol_colli_lengths.shape[1]] steps; the entry of step [m] holds
    one matrix for each ray that has more than [m] voxels (not one for each
    ray). *)
Theorem accumulator_passes_one_matrix_per_active_ray :
  forall rayJM calc_rayDir voxRayJM1 (self : BirefringentRaytraceLFM)
         (vol : VolumeLFM) (micro_lens_offset : Z * Z)
         (effective_JM : list JonesMatrix),
    calc_cummulative_JM_of_ray rayJM calc_rayDir voxRayJM1 self vol
      micro_lens_offset = Ok effective_JM ->
    exists JM_list,
      effective_JM = rayJM JM_list (ray_vol_colli_indexes self)
      /\ length JM_list = colli_steps self
      /\ forall (m : nat) (JM : list JonesMatrix),
           JM_list !! m = Some JM ->
           length JM = rays_at_step (ray_vol_colli_indexes self) m.
Proof.
  intros rayJM calc_rayDir voxRayJM1 self vol off eff H.
  unfold calc_cummulative_JM_of_ray in H.
  match type of H with
  | context [rmapM ?f ?l] => destruct (rmapM f l) as [JM_list|] eqn:E
  end; [|done].
  simpl in H. injection H as <-. exists JM_list. split; [done|]. split.
  - apply rmapM_length in E. by rewrite E, length_seq.
  - intros m JM Hm.
    destruct (rmapM_lookup _ _ _ _ _ E Hm) as (m' & Hm' & Hstep).
    apply lookup_seq in Hm' as [-> _]. simpl in Hstep.
    destruct (step_inputs calc_rayDir self vol off m) as [inputs|] eqn:Ei;
      [|done].
    simpl in Hstep. injection Hstep as <-.
    rewrite JM_of_step_length. by eapply step_inputs_length.
Qed.

(** X3. When every voxel that a ray visits within the first
    [ray_vol_colli_lengths.shape[1]] steps, displaced by the micro-lens
    offset, lies within the index range [-D .. D-1] of the volume along each
    axis, the accumulator returns the matrices of [rayJM]. *)
Theorem accumulator_returns_when_voxels_in_range :
  forall rayJM calc_rayDir voxRayJM1 (self : BirefringentRaytraceLFM)
         (vol : VolumeLFM) (micro_lens_offset : Z * Z),
    (forall (vx : list coord) (m : nat) (v : coord),
       vx ∈ ray_vol_colli_indexes self -> vx !! m = Some v ->
       (m < colli_steps self)%nat ->
       displaced_in_range vol micro_lens_offset v) ->
    exists JM_list,
      calc_cummulative_JM_of_ray rayJM calc_rayDir voxRayJM1 self vol
        micro_lens_offset = Ok (rayJM JM_list (ray_vol_colli_indexes self)).
Proof.
  intros rayJM calc_rayDir voxRayJM1 self vol off H.
  unfold calc_cummulative_JM_of_ray.
  match goal with
  | |- context [rmapM ?f ?l] => destruct (rmapM_ok f l) as [JM_list ->]
  end.
  - intros m Hm. apply elem_of_seq in Hm.
    destruct (step_inputs_ok calc_rayDir self vol off m) as [inputs ->].
    + intros vx v Hvx Hv. eapply H; eauto. lia.
    + simpl. by eexists.
  - simpl. by eexists.
Qed.

(** X4. When some ray has, within the first
    [ray_vol_colli_lengths.shape[1]] steps, a voxel whose displaced index
    lies outside the index range of the volume along an axis, the
    accumulator raises [IndexError]. *)
Theorem accumulator_raises_when_voxel_out_of_range :
  forall rayJM calc_rayDir voxRayJM1 (self : BirefringentRaytraceLFM)
         (vol : VolumeLFM) (micro_lens_offset : Z * Z)
         (vx : list coord) (m : nat) (v : coord),
    vx ∈ ray_vol_colli_indexes self -> vx !! m = Some v ->
    (m < colli_steps self)%nat ->
    ~ displaced_in_range vol micro_lens_offset v ->
    calc_cummulative_JM_of_ray rayJM calc_rayDir voxRayJM1 self vol
      micro_lens_offset = Raise IndexError.
Proof.
  intros rayJM calc_rayDir voxRayJM1 self vol off vx m v Hvx Hm Hlt Hv.
  unfold calc_cummulative_JM_of_ray.
  match goal with
  | |- context [rmapM ?f ?l] =>
      rewrite (rmapM_raise f l IndexError) with (a := m)
  end.
  - reflexivity.
  - intros m' e'.
    destruct (step_inputs calc_rayDir self vol off m') as [inputs|e0] eqn:E;
      simpl; [done|].
    intros [= <-]. by eapply step_inputs_raises_IndexError.
  - apply elem_of_seq. lia.
  - by rewrite (step_inputs_raise calc_rayDir self vol off m vx v).
Qed.

(** ** The images of one micro-lens *)

Lemma rfoldM_raise {A B : Type} (f : A -> B -> result A) (l : list B) (e : exn) :
  (forall a b e', f a b = Raise e' -> e' = e) ->
  forall b, b ∈ l -> (forall a, f a b = Raise e) ->
  forall a, rfoldM f l a = Raise e.
Proof.
  intros Hf b. induction l as [|b0 l IH]; intros Hb Hfb a; [by inversion Hb|].
  simpl. destruct (f a b0) as [a1|e0] eqn:E0; simpl.
  - apply elem_of_cons in Hb as [->|Hb]; [rewrite Hfb in E0; done|].
    by apply IH.
  - f_equal. by eapply Hf.
Qed.

Lemma rfoldM_raises_only {A B : Type} (f : A -> B -> result A) (l : list B)
  (e : exn) :
  (forall a b e', f a b = Raise e' -> e' = e) ->
  forall a e', rfoldM f l a = Raise e' -> e' = e.
Proof.
  intros Hf. induction l as [|b0 l IH]; intros a e' H; simpl in H; [done|].
  destruct (f a b0) as [a1|e0] eqn:E0; simpl in H.
  - by eapply IH.
  - injection H as <-. by eapply Hf.
Qed.

Lemma rmapM_raises_only {A B : Type} (f : A -> result B) (l : list A) (e : exn) :
  (forall a e', f a = Raise e' -> e' = e) ->
  forall e', rmapM f l = Raise e' -> e' = e.
Proof.
  intros Hf. induction l as [|a0 l IH]; intros e' H; simpl in H; [done|].
  destruct (f a0) as [b0|e0] eqn:E0; simpl in H.
  - destruct (rmapM f l) as [bs|e1]; simpl in H; [done|].
    injection H as <-. by apply IH.
  - injection H as <-. by eapply Hf.
Qed.

Lemma norm_index_raise (i : Z) (D : nat) :
  ~ (- Z.of_nat D <= i < Z.of_nat D) -> norm_index i D = Raise IndexError.
Proof.
  unfold norm_index. intros H.
  repeat match goal with
         | |- context [Z.leb ?a ?b] => destruct (Z.leb_spec a b); simpl
         | |- context [Z.ltb ?a ?b] => destruct (Z.ltb_spec a b); simpl
         end; try reflexivity; lia.
Qed.

Lemma norm_index_raises_IndexError (i : Z) (D : nat) (e : exn) :
  norm_index i D = Raise e -> e = IndexError.
Proof. unfold norm_index. repeat case_match; congruence. Qed.

Lemma set_pixel_raises_IndexError (r c : nat) (img : image) (i j : Z)
  (v : F32.t) (e : exn) :
  set_pixel r c img i j v = Raise e -> e = IndexError.
Proof.
  unfold set_pixel.
  destruct (norm_index i r) as [i'|e1] eqn:Ei; simpl.
  - destruct (norm_index j c) as [j'|e2] eqn:Ej; simpl; [done|].
    intros [= <-]. by eapply norm_index_raises_IndexError.
  - intros [= <-]. by eapply norm_index_raises_IndexError.
Qed.

Lemma set_pixel_raise (r c : nat) (img : image) (i j : Z) (v : F32.t) :
  ~ (- Z.of_nat r <= i < Z.of_nat r /\ - Z.of_nat c <= j < Z.of_nat c) ->
  set_pixel r c img i j v = Raise IndexError.
Proof.
  intros H. destruct (set_pixel r c img i j v) as [img'|e] eqn:E.
  - exfalso. apply H. unfold set_pixel in E.
    destruct (norm_index i r) as [i'|] eqn:Ei; [|done]. simpl in E.
    destruct (norm_index j c) as [j'|] eqn:Ej; [|done].
    unfold norm_index in Ei, Ej. repeat case_match; try done; lia.
  - f_equal. by eapply set_pixel_raises_IndexError.
Qed.

Lemma set_pixel_same (r c : nat) (img img' : image) (i j : Z) (v : F32.t) :
  set_pixel r c img i j v = Ok img' -> has_shape r c img ->
  0 <= i -> 0 <= j ->
  pixel img' (Z.to_nat i) (Z.to_nat j) = Some v.
Proof.
  unfold set_pixel, pixel. intros H [Hlen Hrows] Hi Hj.
  destruct (norm_index i r) as [i'|] eqn:Ei; [|done]. simpl in H.
  destruct (norm_index j c) as [j'|] eqn:Ej; [|done]. simpl in H.
  injection H as <-.
  pose proof (norm_index_lt _ _ _ Ei) as Hi'.
  pose proof (norm_index_lt _ _ _ Ej) as Hj'.
  apply norm_index_nonneg in Ei; [|done]. apply norm_index_nonneg in Ej; [|done].
  replace (Z.to_nat i) with i' by lia. replace (Z.to_nat j) with j' by lia.
  rewrite list_lookup_alter_eq.
  destruct (lookup_lt_is_Some_2 img i') as [row Hrow]; [lia|].
  rewrite Hrow. simpl. apply list_lookup_insert_eq.
  rewrite Forall_forall in Hrows.
  rewrite (Hrows row); [done|]. by eapply list_elem_of_lookup_2.
Qed.

Section PixelValues.
Variables (ppm : nat) (retardance azimuth : list F32.t).

Lemma assign_pixel_raises_IndexError (imgs : image * image)
  (p : nat * (Z * Z)) (e : exn) :
  assign_pixel ppm retardance azimuth imgs p = Raise e -> e = IndexError.
Proof.
  destruct p as [ray_ix [i j]]. unfold assign_pixel.
  destruct (retardance !! ray_ix) as [rv|]; [|congruence].
  destruct (azimuth !! ray_ix) as [av|]; [|congruence].
  destruct (set_pixel ppm ppm imgs.1 i j rv) as [r'|e1] eqn:Er; simpl.
  - destruct (set_pixel ppm ppm imgs.2 i j av) as [a'|e2] eqn:Ea; simpl;
      [done|].
    intros [= <-]. by eapply set_pixel_raises_IndexError.
  - intros [= <-]. by eapply set_pixel_raises_IndexError.
Qed.

Lemma assign_pixel_raise (imgs : image * image) (ray_ix : nat) (i j : Z) :
  ~ (- Z.of_nat ppm <= i < Z.of_nat ppm /\ - Z.of_nat ppm <= j < Z.of_nat ppm) ->
  assign_pixel ppm retardance azimuth imgs (ray_ix, (i, j)) = Raise IndexError.
Proof.
  intros H. unfold assign_pixel.
  destruct (retardance !! ray_ix) as [rv|]; [|done].
  destruct (azimuth !! ray_ix) as [av|]; [|done].
  rewrite (set_pixel_raise ppm ppm imgs.1) by done. reflexivity.
Qed.

Lemma assign_pixels_value (l : list (Z * Z)) :
  forall (s : nat) (imgs imgs' : image * image) (k : nat) (i j : Z),
    rfoldM (assign_pixel ppm retardance azimuth) (zip (seq s (length l)) l) imgs
    = Ok imgs' ->
    has_shape ppm ppm imgs.1 /\ has_shape ppm ppm imgs.2 ->
    Forall (fun ab : Z * Z => 0 <= ab.1 /\ 0 <= ab.2) l ->
    NoDup l ->
    l !! k = Some (i, j) ->
    exists r a,
      retardance !! (s + k)%nat = Some r /\ azimuth !! (s + k)%nat = Some a
      /\ pixel imgs'.1 (Z.to_nat i) (Z.to_nat j) = Some r
      /\ pixel imgs'.2 (Z.to_nat i) (Z.to_nat j) = Some a.
Proof.
  induction l as [|ab l IH]; intros s imgs imgs' k i j H Hs Hpos Hnd Hk;
    [done|].
  cbn -[assign_pixel] in H.
  destruct (assign_pixel ppm retardance azimuth imgs (s, ab)) as [imgs1|] eqn:E1;
    [|done].
  cbn -[assign_pixel] in H.
  pose proof (assign_pixel_shape _ _ _ _ _ _ E1 Hs) as Hs1.
  inversion Hpos as [|? ? [Hab1 Hab2] Hpos']; subst.
  apply NoDup_cons in Hnd as [Hnotin Hnd].
  destruct k as [|k]; simpl in Hk.
  - injection Hk as ->. simpl in Hab1, Hab2.
    unfold assign_pixel in E1.
    destruct (retardance !! s) as [rv|] eqn:Er; [|done].
    destruct (azimuth !! s) as [av|] eqn:Ea; [|done].
    destruct (set_pixel ppm ppm imgs.1 i j rv) as [r'|] eqn:Esr; [|done].
    destruct (set_pixel ppm ppm imgs.2 i j av) as [a'|] eqn:Esa; [|done].
    simpl in E1. injection E1 as <-.
    exists rv, av. rewrite Nat.add_0_r. split; [done|]. split; [done|].
    destruct Hs as [Hs1' Hs2'].
    eapply (assign_pixels_other _ _ _ _ (Z.to_nat i) (Z.to_nat j)) in H.
    + destruct H as [-> ->]. simpl. split; by eapply set_pixel_same.
    + apply Forall_forall. intros [ix [a b]] Hp [Ha Hb]. simpl in Ha, Hb.
      apply elem_of_zip_r in Hp.
      rewrite Forall_forall in Hpos'. destruct (Hpos' _ Hp) as [Ha0 Hb0].
      simpl in Ha0, Hb0.
      apply norm_index_nonneg in Ha; [|done].
      apply norm_index_nonneg in Hb; [|done].
      apply Hnotin. replace i with a by lia. replace j with b by lia. done.
  - replace (s + S k)%nat with (S s + k)%nat by lia.
    by eapply (IH (S s) imgs1 imgs').
Qed.
End PixelValues.

Section TileFacts.
Variable rayJM : list (list JonesMatrix) -> list (list coord) -> list JonesMatrix.
Variable calc_retardance : list JonesMatrix -> list F32.t.
Variable calc_azimuth : list JonesMatrix -> list F32.t.
Variable calc_rayDir : list vec3 -> (nat -> vec3) * (nat -> vec3) * (nat -> vec3).
Variable voxRayJM1 : vox_input -> JonesMatrix.

Lemma calc_raises_IndexError self vol off (e : exn) :
  calc_cummulative_JM_of_ray rayJM calc_rayDir voxRayJM1 self vol off = Raise e ->
  e = IndexError.
Proof.
  unfold calc_cummulative_JM_of_ray.
  match goal with
  | |- context [rmapM ?f ?l] => destruct (rmapM f l) as [JM_list|e0] eqn:E
  end; simpl; [done|].
  intros [= <-]. eapply rmapM_raises_only; [|exact E].
  intros m e'. simpl.
  destruct (step_inputs calc_rayDir self vol off m) as [inputs|e1] eqn:Ei;
    simpl; [done|].
  intros [= <-]. by eapply step_inputs_raises_IndexError.
Qed.

(** [ret_and_azim_images] in terms of the offset it computes. *)
Lemma ret_and_azim_images_unfold self volume_in off :
  ret_and_azim_images rayJM calc_retardance calc_azimuth calc_rayDir voxRayJM1
    self volume_in off
  = (effective_JM ← calc_cummulative_JM_of_ray rayJM calc_rayDir voxRayJM1
                      self volume_in (displaced_offset self off);
     rfoldM (assign_pixel (n_pixels_per_mla (optic_config self))
               (calc_retardance effective_JM) (calc_azimuth effective_JM))
            (enumerate (ray_valid_indexes self))
            (zeros (n_pixels_per_mla (optic_config self))
                   (n_pixels_per_mla (optic_config self)),
             zeros (n_pixels_per_mla (optic_config self))
                   (n_pixels_per_mla (optic_config self)))).
Proof.
  unfold ret_and_azim_images, displaced_offset.
  destruct (vox_ctr_idx self) as [[c0 c1] c2]. reflexivity.
Qed.
End TileFacts.

(** X5. Whenever the per-micro-lens image computation returns, its two
    images are tensors of shape [(pixels_per_ml, pixels_per_ml)], whatever
    the rays and the volume are. *)
Theorem tile_images_have_tile_shape :
  forall rayJM calc_retardance calc_azimuth calc_rayDir voxRayJM1
         (self : BirefringentRaytraceLFM) (volume_in : VolumeLFM)
         (micro_lens_offset : Z * Z) (ret_image azim_image : image),
    ret_and_azim_images rayJM calc_retardance calc_azimuth calc_rayDir
      voxRayJM1 self volume_in micro_lens_offset = Ok (ret_image, azim_image) ->
    has_shape (n_pixels_per_mla (optic_config self))
              (n_pixels_per_mla (optic_config self)) ret_image
    /\ has_shape (n_pixels_per_mla (optic_config self))
                 (n_pixels_per_mla (optic_config self)) azim_image.
Proof.
  intros rayJM calc_retardance calc_azimuth calc_rayDir voxRayJM1 self
    volume_in off ret_image azim_image H.
  exact (ret_and_azim_images_shape _ _ _ _ _ _ _ _ _ H).
Qed.

(** X6. When the per-micro-lens image computation returns and the valid
    ray indexes are pairwise different pixel coordinates, the pixel of the
    [k]-th ray holds the [k]-th retardance and the [k]-th azimuth computed
    from the matrices that the accumulator returned for the displaced
    offset. *)
Theorem ray_pixel_holds_its_retardance_and_azimuth :
  forall rayJM calc_retardance calc_azimuth calc_rayDir voxRayJM1
         (self : BirefringentRaytraceLFM) (volume_in : VolumeLFM)
         (micro_lens_offset : Z * Z) (ret_image azim_image : image)
         (k : nat) (i j : Z),
    ret_and_azim_images rayJM calc_retardance calc_azimuth calc_rayDir
      voxRayJM1 self volume_in micro_lens_offset = Ok (ret_image, azim_image) ->
    Forall (fun ab : Z * Z => 0 <= ab.1 /\ 0 <= ab.2) (ray_valid_indexes self) ->
    NoDup (ray_valid_indexes self) ->
    ray_valid_indexes self !! k = Some (i, j) ->
    exists effective_JM r a,
      calc_cummulative_JM_of_ray rayJM calc_rayDir voxRayJM1 self volume_in
        (displaced_offset self micro_lens_offset) = Ok effective_JM
      /\ calc_retardance effective_JM !! k = Some r
      /\ calc_azimuth effective_JM !! k = Some a
      /\ pixel ret_image (Z.to_nat i) (Z.to_nat j) = Some r
      /\ pixel azim_image (Z.to_nat i) (Z.to_nat j) = Some a.
Proof.
  intros rayJM calc_retardance calc_azimuth calc_rayDir voxRayJM1 self
    volume_in off ret_image azim_image k i j H Hpos Hnd Hk.
  rewrite ret_and_azim_images_unfold in H.
  destruct (calc_cummulative_JM_of_ray rayJM calc_rayDir voxRayJM1 self
              volume_in (displaced_offset self off)) as [eff|]; [|done].
  simpl in H. unfold enumerate in H.
  destruct (assign_pixels_value _ _ _ _ 0 _ _ k i j H) as (r & a & Hr & Ha & Hp);
    [split; apply zeros_shape|done..|].
  exists eff, r, a. split; [done|]. split; [done|]. split; [done|exact Hp].
Qed.

(** X7. When a valid ray index lies outside the tile (a coordinate outside
    [-pixels_per_ml .. pixels_per_ml-1]), the per-micro-lens image
    computation raises [IndexError] and returns no image. *)
Theorem tile_raises_when_ray_index_outside_tile :
  forall rayJM calc_retardance calc_azimuth calc_rayDir voxRayJM1
         (self : BirefringentRaytraceLFM) (volume_in : VolumeLFM)
         (micro_lens_offset : Z * Z) (i j : Z),
    let ppm := Z.of_nat (n_pixels_per_mla (optic_config self)) in
    (i, j) ∈ ray_valid_indexes self ->
    ~ (- ppm <= i < ppm /\ - ppm <= j < ppm) ->
    ret_and_azim_images rayJM calc_retardance calc_azimuth calc_rayDir
      voxRayJM1 self volume_in micro_lens_offset = Raise IndexError.
Proof.
  intros rayJM calc_retardance calc_azimuth calc_rayDir voxRayJM1 self
    volume_in off i j ppm Hin Hout.
  rewrite ret_and_azim_images_unfold.
  destruct (calc_cummulative_JM_of_ray rayJM calc_rayDir voxRayJM1 self
              volume_in (displaced_offset self off)) as [eff|e] eqn:E; simpl.
  - apply list_elem_of_lookup_1 in Hin as [k Hk].
    apply (rfoldM_raise _ _ IndexError) with (b := (k, (i, j))).
    + intros imgs p e'. apply assign_pixel_raises_IndexError.
    + unfold enumerate. apply list_elem_of_lookup. exists k.
      apply lookup_zip_with_Some. exists k, (i, j). split; [done|].
      split; [|done]. apply lookup_seq. split; [done|].
      by eapply lookup_lt_Some.
    + intros imgs. by apply assign_pixel_raise.
  - f_equal. by eapply calc_raises_IndexError.
Qed.

(** ** More on the tiler *)

Lemma tfoldM_raises {A B : Type} (f : A -> B -> traced A) (l : list B) (b : B) :
  b ∈ l -> (forall a, exists e, (f a b).2 = Raise e) ->
  forall a, exists e, (tfoldM f l a).2 = Raise e.
Proof.
  intros Hb Hfb. induction l as [|b0 l IH]; intros a; [by inversion Hb|].
  simpl. unfold tbind.
  destruct ((f a b0).2) as [a1|e0] eqn:E0; simpl; [|by eexists].
  apply elem_of_cons in Hb as [->|Hb].
  - destruct (Hfb a) as [e He]. congruence.
  - by apply IH.
Qed.

Lemma tile_offsets_length (s h : Z) :
  length (tile_offsets s h)
  = (length (py_range (- h) (h + 1)) * length (py_range (- h) (h + 1)))%nat.
Proof.
  unfold tile_offsets.
  assert (H : forall l g : list Z,
             length (ml_ii ← l;
                     (fun ml_jj => (s * ml_ii, s * ml_jj)) <$> g)
             = (length l * length g)%nat).
  { intros l g. induction l as [|ii l IH]; [reflexivity|].
    rewrite bind_cons, length_app, length_fmap, IH. simpl. reflexivity. }
  apply H.
Qed.

(** X8. For an even number [n >= 0] of micro-lenses that passes the fit
    check, and when each tile can be computed, the tiler visits [n + 1]
    micro-lenses along each axis, [(n + 1)^2] in all, and both assembled
    images have the shape [((n + 1) * pixels_per_ml, (n + 1) *
    pixels_per_ml)]. *)
Theorem tiler_image_shape_even_count :
  forall rayJM calc_retardance calc_azimuth calc_rayDir voxRayJM1
         (self : BirefringentRaytraceLFM) (volume_in : VolumeLFM),
    let n := n_micro_lenses (optic_config self) in
    let ppm := n_pixels_per_mla (optic_config self) in
    let s := n_voxels_per_ml (optic_config self) in
    let grid := py_range (- floor_half n) (floor_half n + 1) in
    0 <= n -> Z.even n = true ->
    voxel_span_per_ml self * n < Z.of_nat (Dy volume_in) ->
    (forall ml_ii ml_jj, ml_ii ∈ grid -> ml_jj ∈ grid ->
       exists imgs,
         ret_and_azim_images rayJM calc_retardance calc_azimuth calc_rayDir
           voxRayJM1 self volume_in (s * ml_ii, s * ml_jj) = Ok imgs) ->
    exists calls full_img_r full_img_a,
      ray_trace_through_volume rayJM calc_retardance calc_azimuth
        calc_rayDir voxRayJM1 self volume_in
      = (calls, Ok (Some (full_img_r, full_img_a)))
      /\ length calls = (Z.to_nat (n + 1) * Z.to_nat (n + 1))%nat
      /\ has_shape (Z.to_nat (n + 1) * ppm) (Z.to_nat (n + 1) * ppm) full_img_r
      /\ has_shape (Z.to_nat (n + 1) * ppm) (Z.to_nat (n + 1) * ppm) full_img_a.
Proof.
  intros rayJM calc_retardance calc_azimuth calc_rayDir voxRayJM1 self
    volume_in n ppm s grid Hn Heven Hfit Htiles.
  assert (Hhalf : 2 * floor_half n + 1 = n + 1).
  { unfold floor_half. rewrite (Z.div_mod n 2) at 2 by lia.
    rewrite Zmod_even, Heven. lia. }
  destruct (ray_trace_through_volume_shape rayJM calc_retardance
              calc_azimuth calc_rayDir voxRayJM1 self volume_in)
    as (r & a & E & Hr & Ha);
    [apply Z.div_pos; [exact Hn|lia]|exact Hfit|exact Htiles|].
  fold n in Hr, Ha. rewrite Hhalf in Hr, Ha.
  exists (tile_offsets s (floor_half n)), r, a. split; [exact E|].
  split; [|split; assumption].
  rewrite tile_offsets_length, py_range_length.
  replace (floor_half n + 1 - - floor_half n) with (n + 1) by lia.
  reflexivity.
Qed.

(** X9. When the computation of one of the tiles the tiler visits raises an
    exception, the tiler raises an exception too: it returns no image
    assembled from the other tiles. *)
Theorem tiler_returns_no_image_when_a_tile_fails :
  forall rayJM calc_retardance calc_azimuth calc_rayDir voxRayJM1
         (self : BirefringentRaytraceLFM) (volume_in : VolumeLFM)
         (ml_ii ml_jj : Z) (e : exn),
    let n := n_micro_lenses (optic_config self) in
    let s := n_voxels_per_ml (optic_config self) in
    let grid := py_range (- floor_half n) (floor_half n + 1) in
    ml_ii ∈ grid -> ml_jj ∈ grid ->
    ret_and_azim_images rayJM calc_retardance calc_azimuth calc_rayDir
      voxRayJM1 self volume_in (s * ml_ii, s * ml_jj) = Raise e ->
    exists e',
      (ray_trace_through_volume rayJM calc_retardance calc_azimuth
         calc_rayDir voxRayJM1 self volume_in).2 = Raise e'.
Proof.
  intros rayJM calc_retardance calc_azimuth calc_rayDir voxRayJM1 self
    volume_in ml_ii ml_jj e n s grid Hii Hjj Htile.
  unfold ray_trace_through_volume. fold n. simpl.
  destruct (voxel_span_per_ml self * n <? Z.of_nat (Dy volume_in)); simpl;
    [|by eexists].
  apply (tfoldM_raises _ _ ml_ii); [exact Hii|].
  intros full. unfold add_row.
  destruct (tfoldM_raises
              (add_to_row rayJM calc_retardance calc_azimuth calc_rayDir
                 voxRayJM1 self volume_in ml_ii) grid ml_jj Hjj) with (a := @None (image * image))
    as [e1 He1].
  - intros row. unfold add_to_row, tile, tbind. fold s. simpl.
    rewrite Htile. simpl. by eexists.
  - fold grid. unfold tbind at 1. rewrite He1. simpl. by eexists.
Qed.

(** X10. For a negative number of micro-lenses the range of micro-lens
    indices is empty: the fit check passes whenever
    [voxel_span_per_ml * n] is below the y extent, no tile is computed and
    the tiler returns [(None, None)]. *)
Theorem tiler_returns_none_for_negative_count :
  forall rayJM calc_retardance calc_azimuth calc_rayDir voxRayJM1
         (self : BirefringentRaytraceLFM) (volume_in : VolumeLFM),
    n_micro_lenses (optic_config self) < 0 ->
    voxel_span_per_ml self * n_micro_lenses (optic_config self)
    < Z.of_nat (Dy volume_in) ->
    ray_trace_through_volume rayJM calc_retardance calc_azimuth calc_rayDir
      voxRayJM1 self volume_in = ([], Ok None).
Proof.
  intros rayJM calc_retardance calc_azimuth calc_rayDir voxRayJM1 self
    volume_in Hn Hfit.
  unfold ray_trace_through_volume. simpl.
  destruct (Z.ltb_spec
              (voxel_span_per_ml self * n_micro_lenses (optic_config self))
              (Z.of_nat (Dy volume_in))); [simpl|lia].
  assert (E : py_range (- floor_half (n_micro_lenses (optic_config self)))
                (floor_half (n_micro_lenses (optic_config self)) + 1) = []).
  { apply length_zero_iff_nil. rewrite py_range_length. unfold floor_half.
    pose proof (Z.div_mod (n_micro_lenses (optic_config self)) 2).
    pose proof (Z.mod_pos_bound (n_micro_lenses (optic_config self)) 2).
    lia. }
  rewrite E. reflexivity.
Qed.

(** * Properties of the volume presets *)

(** ** The planes preset *)

Section PlanesFacts.
Variable linspace_int : nat -> nat -> list Z.

Lemma fill_planes_last_plane (z_size : nat) (z_ranges : list Z)
  (random_data : nat -> F32.t * vec3) (n_planes : nat) (l : list nat) :
  length z_ranges = (n_planes * 2)%nat ->
  Forall (fun b => 0 <= b <= Z.of_nat z_size - 1) z_ranges ->
  Forall (fun z_ix => (z_ix < n_planes)%nat) l ->
  forall vol : nat -> F32.t * vec3,
    vol (z_size - 1)%nat = zero_voxel ->
    exists vol',
      rfoldM (fill_plane z_size z_ranges random_data) l vol = Ok vol'
      /\ vol' (z_size - 1)%nat = zero_voxel.
Proof.
  intros Hlen Hrange. induction l as [|z_ix l IH]; intros Hl vol Hvol.
  - exists vol. done.
  - inversion Hl as [|? ? Hz Hl']; subst. cbn [rfoldM].
    destruct (lookup_lt_is_Some_2 z_ranges (z_ix * 2)) as [a Ha]; [lia|].
    destruct (lookup_lt_is_Some_2 z_ranges (z_ix * 2 + 1)) as [b Hb]; [lia|].
    assert (E : fill_plane z_size z_ranges random_data vol z_ix
                = Ok (fun z => if in_slice a b z_size z then random_data z_ix
                               else vol z)).
    { unfold fill_plane, np_get. rewrite Ha, Hb. reflexivity. }
    rewrite E. cbn -[in_slice fill_plane]. apply IH; [done|].
    rewrite Forall_forall in Hrange.
    assert (Hb' : 0 <= b <= Z.of_nat z_size - 1)
      by (apply Hrange; by eapply list_elem_of_lookup_2).
    unfold in_slice, slice_bound.
    destruct (Z.ltb_spec b 0); [lia|].
    destruct (Z.ltb_spec (Z.of_nat (z_size - 1)) (Z.min b (Z.of_nat z_size)));
      [lia|].
    by rewrite andb_false_r.
Qed.
End PlanesFacts.

(** X11. With [n_planes = 1] the plane is put at [z_size//2 + 4]: for a
    volume of fewer than 9 slices along z that index is out of range and
    [generate_planes_volume] raises [IndexError]. *)
Theorem single_plane_needs_nine_slices :
  forall (linspace_int : nat -> nat -> list Z) (z_size dy dx : nat)
         (Delta_n a_0 a_1 a_2 : nat -> F32.t),
    (z_size < 9)%nat ->
    generate_planes_volume linspace_int (z_size, dy, dx) 1 Delta_n a_0 a_1 a_2
    = Raise IndexError.
Proof.
  intros linspace_int z_size dy dx Delta_n a_0 a_1 a_2 Hz.
  unfold generate_planes_volume. simpl.
  rewrite norm_index_raise; [reflexivity|].
  pose proof (Z.div_mod (Z.of_nat z_size) 2).
  pose proof (Z.mod_pos_bound (Z.of_nat z_size) 2). lia.
Qed.

Lemma single_plane_needs_nine_slices_witness :
  generate_planes_volume sample_linspace (3, 5, 5)%nat 1
    (fun _ => F32.one) (fun _ => F32.one) (fun _ => F32.zero) (fun _ => F32.zero)
  = Raise IndexError.
Proof.
  apply single_plane_needs_nine_slices. lia.
Defined.

(** X12. With [n_planes = 1] and at least 9 slices along z,
    [generate_planes_volume] returns a volume of the requested shape whose
    slice [z_size//2 + 4] has birefringence [0.1] and axis [(1, 0, 0)] at
    every voxel and whose other voxels are zero; every voxel satisfies the
    invariant of the volume (a unit axis wherever the birefringence is not
    zero). *)
Theorem single_plane_volume_content :
  forall (linspace_int : nat -> nat -> list Z) (z_size dy dx : nat)
         (Delta_n a_0 a_1 a_2 : nat -> F32.t),
    (9 <= z_size)%nat ->
    exists vol,
      generate_planes_volume linspace_int (z_size, dy, dx) 1
        Delta_n a_0 a_1 a_2 = Ok vol
      /\ (Dz vol, Dy vol, Dx vol) = (z_size, dy, dx)
      /\ forall z y x : nat,
           voxel_at vol z y x
           = (if Nat.eqb z (z_size / 2 + 4)
              then (f32_tenth, (F32.one, F32.zero, F32.zero))
              else zero_voxel)
           /\ unit_axis_within f32_tolerance (voxel_at vol z y x) = true.
Proof.
  intros linspace_int z_size dy dx Delta_n a_0 a_1 a_2 Hz.
  unfold generate_planes_volume. cbn [Nat.eqb].
  assert (Hidx : norm_index (Z.of_nat z_size / 2 + 4) z_size
                 = Ok (z_size / 2 + 4)%nat).
  { unfold norm_index.
    pose proof (Z.div_mod (Z.of_nat z_size) 2).
    pose proof (Z.mod_pos_bound (Z.of_nat z_size) 2).
    destruct (Z.leb_spec 0 (Z.of_nat z_size / 2 + 4)); [|lia].
    destruct (Z.ltb_spec (Z.of_nat z_size / 2 + 4) (Z.of_nat z_size)); [|lia].
    simpl. f_equal. rewrite Z2Nat.inj_add, Z2Nat.inj_div by lia.
    rewrite Nat2Z.id. reflexivity. }
  rewrite Hidx. eexists. split; [reflexivity|]. split; [reflexivity|].
  intros z y x. unfold voxel_at, volume_of. cbn [voxel_parameters].
  destruct (Nat.eqb z (z_size / 2 + 4)); split; reflexivity.
Qed.

Lemma single_plane_volume_content_witness :
  exists vol,
    generate_planes_volume sample_linspace (11, 3, 3)%nat 1
      (fun _ => F32.one) (fun _ => F32.one) (fun _ => F32.zero)
      (fun _ => F32.zero) = Ok vol
    /\ (Dz vol, Dy vol, Dx vol) = (11, 3, 3)%nat
    /\ forall z y x : nat,
         voxel_at vol z y x
         = (if Nat.eqb z (11 / 2 + 4)
            then (f32_tenth, (F32.one, F32.zero, F32.zero))
            else zero_voxel)
         /\ unit_axis_within f32_tolerance (voxel_at vol z y x) = true.
Proof.
  apply (single_plane_volume_content sample_linspace 11 3 3). lia.
Defined.

(** X13. With [n_planes] other than 1, when the slice bounds that
    [np.linspace(0, z_size-1, n_planes*2).astype(int)] yields number
    [n_planes*2] and lie in [0 .. z_size-1], [generate_planes_volume]
    returns a volume whose last slice along z is zero: the upper bound of a
    slice is exclusive, so no plane reaches [z_size - 1]. *)
Theorem planes_leave_last_slice_empty :
  forall (linspace_int : nat -> nat -> list Z) (z_size dy dx n_planes : nat)
         (Delta_n a_0 a_1 a_2 : nat -> F32.t),
    (n_planes <> 1)%nat ->
    length (linspace_int z_size (n_planes * 2)%nat) = (n_planes * 2)%nat ->
    Forall (fun b => 0 <= b <= Z.of_nat z_size - 1)
           (linspace_int z_size (n_planes * 2)%nat) ->
    exists vol,
      generate_planes_volume linspace_int (z_size, dy, dx) n_planes
        Delta_n a_0 a_1 a_2 = Ok vol
      /\ forall y x : nat, voxel_at vol (z_size - 1) y x = zero_voxel.
Proof.
  intros linspace_int z_size dy dx n_planes Delta_n a_0 a_1 a_2 Hn Hlen Hr.
  unfold generate_planes_volume.
  destruct (Nat.eqb_spec n_planes 1) as [->|_]; [done|].
  destruct (fill_planes_last_plane z_size (linspace_int z_size (n_planes * 2)%nat)
              (fun k => random_voxel (Delta_n k) (a_0 k) (a_1 k) (a_2 k))
              n_planes (seq 0 n_planes) Hlen Hr) with (vol := fun _ : nat => zero_voxel)
    as (vol' & E & Hlast).
  - apply Forall_forall. intros k Hk. apply elem_of_seq in Hk. lia.
  - reflexivity.
  - rewrite E. simpl. eexists. split; [reflexivity|].
    intros y x. unfold voxel_at, volume_of. cbn [voxel_parameters].
    rewrite Hlast. reflexivity.
Qed.

Lemma planes_leave_last_slice_empty_witness :
  exists vol,
    generate_planes_volume sample_linspace (11, 3, 3)%nat 2
      (fun _ => F32.one) (fun _ => F32.one) (fun _ => F32.zero)
      (fun _ => F32.zero) = Ok vol
    /\ forall y x : nat, voxel_at vol (11 - 1) y x = zero_voxel.
Proof.
  apply (planes_leave_last_slice_empty sample_linspace 11 3 3 2).
  - lia.
  - reflexivity.
  - repeat constructor; simpl; lia.
Defined.

(** ** [init_volume] *)

(** X14. For a mode name that is none of ['zeros'], ['random'] and
    ['ellipsoid'] and does not contain ['planes'], [init_volume] raises no
    exception and returns the volume with the parameters it had. *)
Theorem init_volume_ignores_unknown_mode :
  forall (linspace_int : nat -> nat -> list Z) (volume_shape : nat * nat * nat)
         (volume_ref : VolumeLFM) (init_mode : string)
         (Delta_n a_0 a_1 a_2 : tensor3) (Delta_n1 a_01 a_11 a_21 : nat -> F32.t),
    init_mode <> "zeros"%string ->
    init_mode <> "random"%string ->
    init_mode <> "ellipsoid"%string ->
    str_contains "planes" init_mode = false ->
    init_volume linspace_int volume_shape volume_ref init_mode
      Delta_n a_0 a_1 a_2 Delta_n1 a_01 a_11 a_21 = Ok volume_ref.
Proof.
  intros linspace_int volume_shape volume_ref init_mode Delta_n a_0 a_1 a_2
    Delta_n1 a_01 a_11 a_21 Hz Hr He Hp.
  unfold init_volume.
  apply String.eqb_neq in Hz, Hr, He. rewrite Hz, Hr, He, Hp. reflexivity.
Qed.

Lemma init_volume_ignores_unknown_mode_witness :
  init_volume sample_linspace (11, 3, 3)%nat (sample_volume 5 2) "sphere"
    (fun _ _ _ => F32.one) (fun _ _ _ => F32.one) (fun _ _ _ => F32.one)
    (fun _ _ _ => F32.one) (fun _ => F32.one) (fun _ => F32.one)
    (fun _ => F32.zero) (fun _ => F32.zero)
  = Ok (sample_volume 5 2).
Proof.
  apply init_volume_ignores_unknown_mode; (discriminate || reflexivity).
Defined.

(** X15. For a mode name that contains ['planes'] and whose first character
    is not a decimal digit (the bare name ['planes'] for one),
    [init_volume] raises [ValueError]: the number of planes is read from the
    first character. *)
Theorem init_volume_planes_needs_leading_digit :
  forall (linspace_int : nat -> nat -> list Z) (volume_shape : nat * nat * nat)
         (volume_ref : VolumeLFM) (c : Ascii.ascii) (rest : string)
         (Delta_n a_0 a_1 a_2 : tensor3) (Delta_n1 a_01 a_11 a_21 : nat -> F32.t),
    str_contains "planes" (String c rest) = true ->
    ~ (48 <= Ascii.nat_of_ascii c <= 57)%nat ->
    init_volume linspace_int volume_shape volume_ref (String c rest)
      Delta_n a_0 a_1 a_2 Delta_n1 a_01 a_11 a_21 = Raise ValueError.
Proof.
  intros linspace_int volume_shape volume_ref c rest Delta_n a_0 a_1 a_2
    Delta_n1 a_01 a_11 a_21 Hp Hc.
  unfold init_volume.
  destruct (String.eqb_spec (String c rest) "zeros") as [E|_];
    [rewrite E in Hp; discriminate Hp|].
  destruct (String.eqb_spec (String c rest) "random") as [E|_];
    [rewrite E in Hp; discriminate Hp|].
  rewrite Hp. unfold py_int_digit.
  destruct (Nat.leb_spec 48 (Ascii.nat_of_ascii c));
    destruct (Nat.leb_spec (Ascii.nat_of_ascii c) 57); simpl; try reflexivity.
  lia.
Qed.

Lemma init_volume_planes_needs_leading_digit_witness :
  init_volume sample_linspace (11, 3, 3)%nat (sample_volume 5 2) "planes"
    (fun _ _ _ => F32.one) (fun _ _ _ => F32.one) (fun _ _ _ => F32.one)
    (fun _ _ _ => F32.one) (fun _ => F32.one) (fun _ => F32.one)
    (fun _ => F32.zero) (fun _ => F32.zero)
  = Raise ValueError.
Proof.
  apply (init_volume_planes_needs_leading_digit sample_linspace (11, 3, 3)%nat
           (sample_volume 5 2) (Ascii.ascii_of_nat 112) "lanes").
  - reflexivity.
  - vm_compute. lia.
Defined.

(** ** The ellipsoid preset *)

Lemma F64_sub_self (x : F64.t) :
  is_finite x = true -> F64.sub x x = S754_zero false.
Proof.
  destruct x as [s|s| |s m e]; try discriminate; intros _.
  - by destruct s.
  - assert (Hdiag : forall z : Z, IntDef.Z.sub z z = 0)
      by (intros z; exact (Z.sub_diag z)).
    assert (Hmin : IntDef.Z.min e e = e) by exact (Z.min_id e).
    unfold F64.sub, SFsub. cbv zeta. rewrite Hmin. unfold shl_align.
    rewrite !Hdiag. reflexivity.
Qed.

Lemma F64_mul_self_sign (r : F64.t) (s : bool) (m : positive) (e : Z) :
  F64.mul r r = S754_finite s m e -> s = false.
Proof.
  destruct r as [sr|sr| |sr mr er]; try discriminate.
  unfold F64.mul, SFmul, binary_round_aux.
  destruct (shr_fexp _ _ _ _ _) as [mrs' e'].
  destruct (shr_fexp _ _ _ _ _) as [mrs'' e''].
  destruct (shr_m mrs''); try discriminate.
  destruct (Z.leb _ _); try discriminate.
  intros [= <- _ _]. by destruct sr.
Qed.

(** X16. In [generate_ellipsoid_volume], for radii that are finite and not
    zero (and whose squares are), and for [abs(0 - alpha) <= 1], the voxel
    whose indices equal [floor(center*volume_shape)] lies inside the mask:
    its birefringence is [1.0 * delta_n] and the three components of its
    axis are zeros, because the division of the zero normal by the
    substituted norm [1] gives zero. *)
Theorem ellipsoid_centre_voxel_axis_is_zero :
  forall (c0 c1 c2 : Z) (r0 r1 r2 alpha delta_n : F64.t) (k j i : nat),
    c0 = Z.of_nat k -> c1 = Z.of_nat j -> c2 = Z.of_nat i ->
    is_finite (F64.of_Z c0) = true ->
    is_finite (F64.of_Z c1) = true ->
    is_finite (F64.of_Z c2) = true ->
    is_finite_nonzero r0 = true ->
    is_finite_nonzero r1 = true ->
    is_finite_nonzero r2 = true ->
    is_finite_nonzero (F64.mul r0 r0) = true ->
    is_finite_nonzero (F64.mul r1 r1) = true ->
    is_finite_nonzero (F64.mul r2 r2) = true ->
    F64.leb (F64.abs (F64.sub F64.zero alpha)) F64.one = true ->
    exists a1 a2 a3,
      ellipsoid_voxel (c0, c1, c2) (r0, r1, r2) alpha delta_n k j i
      = (F32.mul F32.one (F32.round delta_n), (a1, a2, a3))
      /\ is_zero a1 = true /\ is_zero a2 = true /\ is_zero a3 = true.
Proof.
  intros c0 c1 c2 r0 r1 r2 alpha delta_n k j i -> -> -> Hc0 Hc1 Hc2
    Hr0 Hr1 Hr2 Hq0 Hq1 Hq2 Halpha.
  assert (Htwo : F64.of_Z 2 = S754_finite false 4503599627370496 (-51))
    by (vm_compute; reflexivity).
  unfold F64.zero in Halpha.
  unfold ellipsoid_voxel. cbv zeta.
  rewrite !F64_sub_self, Htwo by assumption.
  destruct (F64.mul r0 r0) as [| | |s0 m0 e0] eqn:E0; try discriminate.
  destruct (F64.mul r1 r1) as [| | |s1 m1 e1] eqn:E1; try discriminate.
  destruct (F64.mul r2 r2) as [| | |s2 m2 e2] eqn:E2; try discriminate.
  apply F64_mul_self_sign in E0, E1, E2. subst s0 s1 s2.
  destruct r0 as [| | |t0 n0 f0]; try discriminate.
  destruct r1 as [| | |t1 n1 f1]; try discriminate.
  destruct r2 as [| | |t2 n2 f2]; try discriminate.
  cbn -[F64.leb F64.abs F64.sub F32.mul F32.round].
  rewrite Halpha.
  destruct t0, t1, t2; do 3 eexists;
    (split; [reflexivity|]); repeat split; reflexivity.
Qed.

Lemma ellipsoid_centre_voxel_axis_is_zero_witness :
  exists a1 a2 a3,
    ellipsoid_voxel (5, 5, 5) init_radius default_alpha init_delta_n 5 5 5
    = (F32.mul F32.one (F32.round init_delta_n), (a1, a2, a3))
    /\ is_zero a1 = true /\ is_zero a2 = true /\ is_zero a3 = true.
Proof.
  apply (ellipsoid_centre_voxel_axis_is_zero 5 5 5
           (F64.of_Z 5) (F64.of_decimal 75 1) (F64.of_decimal 75 1)
           default_alpha init_delta_n 5 5 5);
    vm_compute; reflexivity.
Defined.

(** * The further properties on the sample data *)

Lemma accumulator_passes_one_matrix_per_active_ray_witness :
  exists effective_JM JM_list,
    sample_accumulator (sample_rays 1 1 2) (sample_volume 5 2) (2, 2)
    = Ok effective_JM
    /\ effective_JM
       = sample_rayJM JM_list (ray_vol_colli_indexes (sample_rays 1 1 2))
    /\ length JM_list = colli_steps (sample_rays 1 1 2)
    /\ forall (m : nat) (JM : list JonesMatrix),
         JM_list !! m = Some JM ->
         length JM = rays_at_step (ray_vol_colli_indexes (sample_rays 1 1 2)) m.
Proof.
  assert (H : { eff | sample_accumulator (sample_rays 1 1 2)
                        (sample_volume 5 2) (2, 2) = Ok eff })
    by (eexists; vm_compute; reflexivity).
  destruct H as [eff H]. exists eff.
  destruct (accumulator_passes_one_matrix_per_active_ray sample_rayJM
              sample_calc_rayDir sample_voxRayJM1 (sample_rays 1 1 2)
              (sample_volume 5 2) (2, 2) eff H) as (JM_list & H1 & H2 & H3).
  exists JM_list. split; [exact H|]. split; [exact H1|]. split; assumption.
Defined.

Lemma accumulator_returns_when_voxels_in_range_witness :
  exists JM_list,
    sample_accumulator (sample_rays 1 1 2) (sample_volume 5 2) (2, 2)
    = Ok (sample_rayJM JM_list (ray_vol_colli_indexes (sample_rays 1 1 2))).
Proof.
  apply (accumulator_returns_when_voxels_in_range sample_rayJM
           sample_calc_rayDir sample_voxRayJM1 (sample_rays 1 1 2)
           (sample_volume 5 2) (2, 2)).
  intros vx m v Hvx Hv _. simpl in Hvx.
  apply elem_of_cons in Hvx as [->|Hvx].
  - destruct m as [|m]; [|done]. injection Hv as <-.
    unfold displaced_in_range. simpl. lia.
  - apply elem_of_cons in Hvx as [->|Hvx]; [|by apply elem_of_nil in Hvx].
    destruct m as [|[|m]]; [| |done]; injection Hv as <-;
      unfold displaced_in_range; simpl; lia.
Defined.

Lemma accumulator_raises_when_voxel_out_of_range_witness :
  sample_accumulator (sample_rays 1 1 2) (sample_volume 5 2) (10, 0)
  = Raise IndexError.
Proof.
  apply (accumulator_raises_when_voxel_out_of_range sample_rayJM
           sample_calc_rayDir sample_voxRayJM1 (sample_rays 1 1 2)
           (sample_volume 5 2) (10, 0) [(1, 0, 0)] 0 (1, 0, 0)).
  - simpl. by left.
  - reflexivity.
  - simpl. lia.
  - unfold displaced_in_range. simpl. lia.
Defined.

Lemma tile_images_have_tile_shape_witness :
  exists ret_image azim_image,
    sample_images (sample_rays 1 1 2) (sample_volume 5 2) (0, 0)
    = Ok (ret_image, azim_image)
    /\ has_shape 2 2 ret_image /\ has_shape 2 2 azim_image.
Proof.
  eexists. eexists. split; [vm_compute; reflexivity|].
  apply (tile_images_have_tile_shape sample_rayJM sample_calc_retardance
           sample_calc_azimuth sample_calc_rayDir sample_voxRayJM1
           (sample_rays 1 1 2) (sample_volume 5 2) (0, 0)).
  vm_compute. reflexivity.
Defined.

Lemma ray_pixel_holds_its_retardance_and_azimuth_witness :
  exists ret_image azim_image effective_JM r a,
    sample_images (sample_rays 1 1 2) (sample_volume 5 2) (0, 0)
    = Ok (ret_image, azim_image)
    /\ sample_accumulator (sample_rays 1 1 2) (sample_volume 5 2)
         (displaced_offset (sample_rays 1 1 2) (0, 0)) = Ok effective_JM
    /\ sample_calc_retardance effective_JM !! 1%nat = Some r
    /\ sample_calc_azimuth effective_JM !! 1%nat = Some a
    /\ pixel ret_image 1 1 = Some r
    /\ pixel azim_image 1 1 = Some a.
Proof.
  eexists. eexists.
  match goal with
  | |- exists eff r a, ?E /\ _ =>
      assert (HE : E) by (vm_compute; reflexivity)
  end.
  destruct (ray_pixel_holds_its_retardance_and_azimuth sample_rayJM
              sample_calc_retardance sample_calc_azimuth sample_calc_rayDir
              sample_voxRayJM1 (sample_rays 1 1 2) (sample_volume 5 2) (0, 0)
              _ _ 1 1 1 HE) as (eff & r & a & H1 & H2 & H3 & H4 & H5).
  - repeat constructor; simpl; lia.
  - apply (bool_decide_unpack _). vm_compute. reflexivity.
  - reflexivity.
  - exists eff, r, a. split; [exact HE|]. split; [exact H1|].
    split; [exact H2|]. split; [exact H3|]. split; assumption.
Defined.

Lemma tile_raises_when_ray_index_outside_tile_witness :
  sample_images sample_rays_outside (sample_volume 5 2) (0, 0)
  = Raise IndexError.
Proof.
  apply (tile_raises_when_ray_index_outside_tile sample_rayJM
           sample_calc_retardance sample_calc_azimuth sample_calc_rayDir
           sample_voxRayJM1 sample_rays_outside (sample_volume 5 2) (0, 0) 2 0).
  - simpl. right. by left.
  - simpl. lia.
Defined.

Lemma tiler_image_shape_even_count_witness :
  exists calls full_img_r full_img_a,
    sample_tiler (sample_rays 2 1 2) (sample_volume 5 2)
    = (calls, Ok (Some (full_img_r, full_img_a)))
    /\ length calls = 9%nat
    /\ has_shape 6 6 full_img_r /\ has_shape 6 6 full_img_a.
Proof.
  refine (tiler_image_shape_even_count sample_rayJM sample_calc_retardance
            sample_calc_azimuth sample_calc_rayDir sample_voxRayJM1
            (sample_rays 2 1 2) (sample_volume 5 2) _ _ _ _).
  - simpl. lia.
  - reflexivity.
  - simpl. lia.
  - intros ml_ii ml_jj Hii Hjj.
    apply elem_of_py_range in Hii, Hjj.
    change (floor_half _) with 1 in Hii, Hjj.
    assert (Ei : ml_ii = -1 \/ ml_ii = 0 \/ ml_ii = 1)
      by (destruct Hii as [Hi1 Hi2]; lia).
    assert (Ej : ml_jj = -1 \/ ml_jj = 0 \/ ml_jj = 1)
      by (destruct Hjj as [Hj1 Hj2]; lia).
    destruct Ei as [->|[->| ->]]; destruct Ej as [->|[->| ->]];
      eexists; vm_compute; reflexivity.
Defined.

Lemma tiler_returns_no_image_when_a_tile_fails_witness :
  exists e', (sample_tiler (sample_rays 3 1 0) (sample_volume 1 0)).2 = Raise e'.
Proof.
  apply (tiler_returns_no_image_when_a_tile_fails sample_rayJM
           sample_calc_retardance sample_calc_azimuth sample_calc_rayDir
           sample_voxRayJM1 (sample_rays 3 1 0) (sample_volume 1 0)
           (-1) (-1) IndexError).
  - apply elem_of_py_range. change (floor_half _) with 1. lia.
  - apply elem_of_py_range. change (floor_half _) with 1. lia.
  - vm_compute. reflexivity.
Defined.

Lemma tiler_returns_none_for_negative_count_witness :
  sample_tiler (sample_rays (-1) 1 2) (sample_volume 5 2) = ([], Ok None).
Proof.
  apply (tiler_returns_none_for_negative_count sample_rayJM
           sample_calc_retardance sample_calc_azimuth sample_calc_rayDir
           sample_voxRayJM1 (sample_rays (-1) 1 2) (sample_volume 5 2));
    simpl; lia.
Defined.

(** ** A step without birefringent voxels *)

Lemma mask_sum_all_false (mask : list bool) :
  Forall (fun b => b = false) mask -> mask_sum mask = 0%nat.
Proof.
  induction 1 as [|b mask -> _ IH]; [reflexivity|].
  by rewrite mask_sum_cons, IH.
Qed.

(** X17. When no voxel of a traversal step has [Delta_n != 0], the step
    does not call [voxRayJM] at all and contributes one identity matrix for
    each of its rays, whatever the axis entries of the voxels are: the test
    on [valid_voxel.sum()] catches what the test [torch.all(my_params==0)]
    lets through. *)
Theorem isotropic_step_never_calls_voxRayJM :
  forall (voxRayJM1 : vox_input -> JonesMatrix) (inputs : list vox_input),
    Forall (fun x => F32.eqb (Delta_n x) F32.zero = true) inputs ->
    JM_of_step voxRayJM1 inputs
    = (replicate (length inputs) JM_identity, []).
Proof.
  intros voxRayJM1 inputs H. unfold JM_of_step.
  rewrite (mask_sum_all_false (valid_voxel inputs)).
  - simpl. by destruct (negb (forallb params_all_zero inputs)).
  - unfold valid_voxel. apply Forall_fmap.
    eapply Forall_impl; [exact H|]. intros x Hx. simpl. by rewrite Hx.
Qed.

Lemma isotropic_step_never_calls_voxRayJM_witness :
  JM_of_step sample_voxRayJM1 sample_inputs_isotropic
  = (replicate (length sample_inputs_isotropic) JM_identity, []).
Proof.
  apply isotropic_step_never_calls_voxRayJM.
  repeat constructor.
Defined.
